(** * ssh-remote-monitor: the resource monitor, embedded and verified

    A shallow embedding of [ResourceMonitor] (src/monitor/monitor.ts): the
    three parsers of /proc text, the status-bar presenter, the timer
    life cycle, one collection cycle and the display menu; and of
    [activate] with its configuration listener (src/extension.ts).

    - A JavaScript string is a [string]: its characters are the code units
      U+0000 to U+00FF.  The /proc files are ASCII; code units above U+00FF
      are outside the model.
    - A JavaScript number is an IEEE 754 binary64 value: [spec_float] with
      the operations of [SpecFloat] at precision 53 and maximal exponent
      1024.
    - [this] is a record passed in and returned; the editor window (timers
      and the error channel) is a second record. *)

From Stdlib Require Import ZArith List String Ascii Bool Lia Reals Lra.
From Stdlib Require Import Floats.SpecFloat Numbers.DecimalString.
Import ListNotations.

Local Open Scope string_scope.
Local Open Scope Z_scope.

(** ** JavaScript strings *)

Module JsString.

(** WhiteSpace and LineTerminator code units up to U+00FF: TAB, LF, VT, FF,
    CR, SP and NBSP.  This is the class [\s] of regular expressions and
    what [TrimString] removes. *)
Definition is_white_space (c : ascii) : bool :=
  match N_of_ascii c with
  | 9%N | 10%N | 11%N | 12%N | 13%N | 32%N | 160%N => true
  | _ => false
  end.

(** [\d] *)
Definition is_digit (c : ascii) : bool :=
  let n := N_of_ascii c in ((48 <=? n) && (n <=? 57))%N.

(** [s.split(sep)] for a separator of one code unit: never empty. *)
Fixpoint split (sep : ascii) (s : string) : list string :=
  match s with
  | EmptyString => [EmptyString]
  | String c s' =>
      if Ascii.eqb c sep then EmptyString :: split sep s'
      else match split sep s' with
           | w :: ws => String c w :: ws
           | [] => [String c EmptyString]
           end
  end.

(** [s.split(/\s+/)]: the pieces between the maximal runs of white space.
    [in_run] says that the previous code unit was white space, so that
    the run it belongs to has already closed a piece. *)
Fixpoint split_white_from (in_run : bool) (s : string) : list string :=
  match s with
  | EmptyString => [EmptyString]
  | String c s' =>
      if is_white_space c then
        if in_run then split_white_from true s'
        else EmptyString :: split_white_from true s'
      else match split_white_from false s' with
           | w :: ws => String c w :: ws
           | [] => [String c EmptyString]
           end
  end.

Definition split_white (s : string) : list string := split_white_from false s.

(** [s.startsWith(p)] *)
Definition startsWith (p s : string) : bool := prefix p s.

(** [parts.join(sep)] on strings *)
Fixpoint join (sep : string) (parts : list string) : string :=
  match parts with
  | [] => EmptyString
  | [p] => p
  | p :: ps => p ++ sep ++ join sep ps
  end.

(** [TrimString(s, start)] *)
Fixpoint trim_start (s : string) : string :=
  match s with
  | String c s' => if is_white_space c then trim_start s' else s
  | EmptyString => EmptyString
  end.

Definition rev_string (s : string) : string :=
  string_of_list_ascii (rev (list_ascii_of_string s)).

(** [TrimString(s, start+end)] *)
Definition trim (s : string) : string :=
  rev_string (trim_start (rev_string (trim_start s))).

(** the maximal prefix of code units satisfying [p], and what follows it *)
Fixpoint span (p : ascii -> bool) (s : string) : string * string :=
  match s with
  | String c s' =>
      if p c then let '(a, b) := span p s' in (String c a, b)
      else (EmptyString, s)
  | EmptyString => (EmptyString, EmptyString)
  end.

(** [n] copies of the code unit [c] *)
Fixpoint repeat_char (c : ascii) (n : nat) : string :=
  match n with
  | O => EmptyString
  | S n' => String c (repeat_char c n')
  end.

(** the first [n] code units and the rest *)
Fixpoint split_at (n : nat) (s : string) : string * string :=
  match n, s with
  | S n', String c s' => let '(a, b) := split_at n' s' in (String c a, b)
  | _, _ => (EmptyString, s)
  end.

End JsString.

(** ** JavaScript numbers *)

Module JsNumber.
Import JsString.

Definition prec : Z := 53.
Definition emax : Z := 1024.

(** The Number type: the binary64 values, with one NaN. *)
Definition number : Type := spec_float.

Definition NaN : number := S754_nan.
Definition Infinity (negative : bool) : number := S754_infinity negative.

(** [x + y], [x - y], [x * y], [x / y] and [x === y] on numbers: the IEEE 754
    operations, rounding to nearest, ties to even *)
Definition add : number -> number -> number := SFadd prec emax.
Definition sub : number -> number -> number := SFsub prec emax.
Definition mul : number -> number -> number := SFmul prec emax.
Definition div : number -> number -> number := SFdiv prec emax.
Definition strict_eq : number -> number -> bool := SFeqb.

(** [x <= y] on numbers *)
Definition le : number -> number -> bool := SFleb.

(** The Number value for the rational [p / q] with [0 <= p] and [0 < q],
    negated when [negative]: the quotient is cut as in a division of two
    numbers, with the position of the remainder, and rounded to nearest,
    ties to even. *)
Definition round_ratio (negative : bool) (p q : Z) : number :=
  match p with
  | Z0 => S754_zero negative
  | _ =>
      let '(m, e, l) := SFdiv_core_binary prec emax p 0 q 0 in
      binary_round_aux prec emax negative m e l
  end.

(** The Number value for [m * 10 ^ e] with [0 <= m]: the decimal value is
    rounded once, whatever the number of its digits. *)
Definition round_decimal (negative : bool) (m e : Z) : number :=
  if 0 <=? e then round_ratio negative (m * 10 ^ e) 1
  else round_ratio negative m (10 ^ (- e)).

(** A numeric literal of the source: an integer *)
Definition of_Z (z : Z) : number := round_ratio (z <? 0) (Z.abs z) 1.

(** *** Numeric strings *)

(** the value of a digit in a radix up to 16 *)
Definition digit_value (c : ascii) : option Z :=
  let n := Z.of_N (N_of_ascii c) in
  if (48 <=? n) && (n <=? 57) then Some (n - 48)
  else if (97 <=? n) && (n <=? 102) then Some (n - 87)
  else if (65 <=? n) && (n <=? 70) then Some (n - 55)
  else None.

Definition is_radix_digit (radix : Z) (c : ascii) : bool :=
  match digit_value c with
  | Some d => d <? radix
  | None => false
  end.

(** the integer written by the digits [s] in [radix], after [acc] *)
Fixpoint digits_value (radix : Z) (s : string) (acc : Z) : Z :=
  match s with
  | EmptyString => acc
  | String c s' =>
      digits_value radix s'
        (acc * radix + match digit_value c with Some d => d | None => 0 end)
  end.

(** an optional sign: whether it is [-], and what follows it *)
Definition scan_sign (s : string) : bool * string :=
  match s with
  | String c r =>
      if Ascii.eqb c "-" then (true, r)
      else if Ascii.eqb c "+" then (false, r)
      else (false, s)
  | EmptyString => (false, s)
  end.

(** ExponentPart: [e] or [E], an optional sign and at least one digit.
    Its value and what follows it; [0] and [s] when [s] starts with no
    exponent part. *)
Definition scan_exponent (s : string) : Z * string :=
  match s with
  | String c r =>
      if Ascii.eqb c "e" || Ascii.eqb c "E" then
        let '(negative, r1) := scan_sign r in
        let '(ds, r2) := span is_digit r1 in
        match ds with
        | EmptyString => (0, s)
        | _ => let v := digits_value 10 ds 0 in
               ((if negative then - v else v), r2)
        end
      else (0, s)
  | EmptyString => (0, s)
  end.

(** The longest prefix of [s] that is a StrUnsignedDecimalLiteral:
    [Infinity], or digits with an optional fraction and exponent.  The
    result is [None] for [Infinity] and [Some (m, e)] for the value
    [m * 10 ^ e], with what follows the literal. *)
Definition scan_unsigned_decimal (s : string)
  : option (option (Z * Z) * string) :=
  if startsWith "Infinity" s then Some (None, snd (split_at 8 s))
  else
    let '(int_part, r1) := span is_digit s in
    let '(frac_part, r2) :=
      match r1 with
      | String "." r => span is_digit r
      | _ => (EmptyString, r1)
      end in
    match int_part, frac_part with
    | EmptyString, EmptyString => None
    | _, _ =>
        let '(ex, r3) := scan_exponent r2 in
        Some (Some (digits_value 10 (int_part ++ frac_part) 0,
                    ex - Z.of_nat (String.length frac_part)), r3)
    end.

(** The longest prefix of [s] that is a StrDecimalLiteral, as its Number
    value, with what follows it. *)
Definition scan_decimal (s : string) : option (number * string) :=
  let '(negative, r) := scan_sign s in
  match scan_unsigned_decimal r with
  | Some (None, rest) => Some (Infinity negative, rest)
  | Some (Some (m, e), rest) => Some (round_decimal negative m e, rest)
  | None => None
  end.

(** [parseFloat(s)] *)
Definition parseFloat (s : string) : number :=
  match scan_decimal (trim_start s) with
  | Some (x, _) => x
  | None => NaN
  end.

(** NonDecimalIntegerLiteral: [0x], [0o] or [0b] and digits of that radix
    up to the end of [s] *)
Definition scan_non_decimal (s : string) : option number :=
  match s with
  | String c0 (String c ds) =>
      let radix :=
        if negb (Ascii.eqb c0 "0") then None
        else if Ascii.eqb c "x" || Ascii.eqb c "X" then Some 16
        else if Ascii.eqb c "o" || Ascii.eqb c "O" then Some 8
        else if Ascii.eqb c "b" || Ascii.eqb c "B" then Some 2
        else None in
      match radix, ds with
      | Some r, String _ _ =>
          match span (is_radix_digit r) ds with
          | (_, EmptyString) => Some (round_ratio false (digits_value r ds 0) 1)
          | _ => None
          end
      | _, _ => None
      end
  | _ => None
  end.

(** [Number(s)] on a string: StringToNumber *)
Definition StringToNumber (s : string) : number :=
  match trim s with
  | EmptyString => S754_zero false
  | t =>
      match scan_non_decimal t with
      | Some x => x
      | None =>
          match scan_decimal t with
          | Some (x, EmptyString) => x
          | _ => NaN
          end
      end
  end.

(** [parseInt(s)] with no radix *)
Definition parseInt (s : string) : number :=
  let '(negative, r) := scan_sign (trim_start s) in
  let '(radix, r1) :=
    match r with
    | String c0 (String c r') =>
        if Ascii.eqb c0 "0" && (Ascii.eqb c "x" || Ascii.eqb c "X")
        then (16, r') else (10, r)
    | _ => (10, r)
    end in
  match span (is_radix_digit radix) r1 with
  | (EmptyString, _) => NaN
  | (ds, _) => round_ratio negative (digits_value radix ds 0) 1
  end.

(** *** Numbers as strings *)

(** the decimal digits of a natural number, ["0"] for zero *)
Definition decimal (n : Z) : string :=
  NilEmpty.string_of_uint (N.to_uint (Z.to_N n)).

(** The mathematical value of the finite number with mantissa [m] and
    exponent [e] is [numerator m e / denominator e]. *)
Definition numerator (m : positive) (e : Z) : Z :=
  if 0 <=? e then Zpos m * 2 ^ e else Zpos m.
Definition denominator (e : Z) : Z :=
  if 0 <=? e then 1 else 2 ^ (- e).

(** the [n] with [10 ^ (n - 1) <= p / q < 10 ^ n], for [0 < p] and [0 < q] *)
Definition decimal_exponent (p q : Z) : Z :=
  if q <=? p then Z.of_nat (String.length (decimal (p / q)))
  else 1 - Z.of_nat (String.length (decimal ((q + p - 1) / p - 1))).

(** Number::toString, the digits.  For the positive finite [x] of value
    [p / q] with [10 ^ (n0 - 1) <= p / q < 10 ^ n0]: the integer [s] of
    [k] digits and the [n] for which the Number value of
    [s * 10 ^ (n - k)] is [x], if there is one; of two, the one nearer to
    [p / q], and the even one when they are as near. *)
Definition digits_of_length (x : number) (p q n0 k : Z) : option (Z * Z) :=
  let scale := n0 - k in
  let num := if 0 <=? scale then p else p * 10 ^ (- scale) in
  let den := if 0 <=? scale then q * 10 ^ scale else q in
  let lo := num / den in
  let hi := lo + 1 in
  let lo_is_x := strict_eq (round_decimal false lo scale) x in
  let hi_is_x := strict_eq (round_decimal false hi scale) x in
  let chosen :=
    match lo_is_x, hi_is_x with
    | true, true =>
        match 2 * (num mod den) ?= den with
        | Lt => Some lo
        | Gt => Some hi
        | Eq => Some (if Z.even lo then lo else hi)
        end
    | true, false => Some lo
    | false, true => Some hi
    | false, false => None
    end in
  match chosen with
  | Some s => if s =? 10 ^ k then Some (10 ^ (k - 1), n0 + 1) else Some (s, n0)
  | None => None
  end.

(** the least [k], from [k] on: [fuel] lengths are tried, and 17 digits
    always name a binary64 value *)
Fixpoint shortest_digits (fuel : nat) (x : number) (p q n0 k : Z) : Z * Z :=
  match digits_of_length x p q n0 k with
  | Some r => r
  | None =>
      match fuel with
      | O => ((if 0 <=? n0 - k then p / (q * 10 ^ (n0 - k))
               else p * 10 ^ (k - n0) / q), n0)
      | S fuel' => shortest_digits fuel' x p q n0 (k + 1)
      end
  end.

(** Number::toString, the notation for the digits [s] and the exponent [n] *)
Definition notation (s n : Z) : string :=
  let ds := decimal s in
  let k := Z.of_nat (String.length ds) in
  if (k <=? n) && (n <=? 21) then ds ++ repeat_char "0" (Z.to_nat (n - k))
  else if (0 <? n) && (n <=? 21) then
    let '(a, b) := split_at (Z.to_nat n) ds in a ++ "." ++ b
  else if (-6 <? n) && (n <=? 0) then
    "0." ++ repeat_char "0" (Z.to_nat (- n)) ++ ds
  else
    let e := n - 1 in
    let exponent := (if e <? 0 then "-" else "+") ++ decimal (Z.abs e) in
    match ds with
    | String d EmptyString => String d EmptyString ++ "e" ++ exponent
    | String d rest => String d EmptyString ++ "." ++ rest ++ "e" ++ exponent
    | EmptyString => EmptyString
    end.

(** [String(x)], [`${x}`] and [x.toString()]: Number::toString in radix 10 *)
Definition ToString (x : number) : string :=
  match x with
  | S754_nan => "NaN"
  | S754_zero _ => "0"
  | S754_infinity negative => (if negative then "-" else "") ++ "Infinity"
  | S754_finite negative m e =>
      let p := numerator m e in
      let q := denominator e in
      let '(s, n) :=
        shortest_digits 16 (S754_finite false m e) p q (decimal_exponent p q) 1 in
      (if negative then "-" else "") ++ notation s n
  end.

(** the integer [n] for which [n / 10 ^ f - p / q] is as close to zero as
    possible, the larger of two, for [0 <= p] and [0 < q] *)
Definition nearest_integer (p q : Z) (f : nat) : Z :=
  (2 * p * 10 ^ Z.of_nat f + q) / (2 * q).

(** the digits of [n] with a point before the last [f] of them, after as
    many zeros as it takes to have a digit before the point *)
Definition point_notation (n : Z) (f : nat) : string :=
  let m := decimal n in
  match f with
  | O => m
  | _ =>
      let k := String.length m in
      let m := if (k <=? f)%nat then repeat_char "0" (f + 1 - k) ++ m else m in
      let '(a, b) := split_at (String.length m - f) m in
      a ++ "." ++ b
  end.

(** [x.toFixed(f)] for the non-negative value [p / q] below [10 ^ 21] *)
Definition fixed_notation (p q : Z) (f : nat) : string :=
  point_notation (nearest_integer p q f) f.

(** [x.toFixed(f)] *)
Definition toFixed (x : number) (f : nat) : string :=
  match x with
  | S754_zero _ => fixed_notation 0 1 f
  | S754_finite negative m e =>
      let p := numerator m e in
      let q := denominator e in
      if 10 ^ 21 * q <=? p then ToString x
      else (if negative then "-" else "") ++ fixed_notation p q f
  | _ => ToString x
  end.

End JsNumber.

(** ** The resource monitor *)

Module Monitor.
Import JsString JsNumber.

(** the line feed, ["\n"] *)
Definition LF : ascii := ascii_of_N 10.

(** *** State *)

Record DisplayOptions := {
  showCpu : bool;
  showMemory : bool;
  showLoad : bool
}.

(** What a field declared [number | null] holds at run time.  An array
    read past its end is [undefined], whatever the declared type says. *)
Inductive value :=
| Null
| Undefined
| Num (x : number).

(** ToNumber, as the arithmetic operators apply it *)
Definition ToNumber (v : value) : number :=
  match v with
  | Null => of_Z 0
  | Undefined => NaN
  | Num x => x
  end.

(** [v === null] *)
Definition is_null (v : value) : bool :=
  match v with
  | Null => true
  | _ => false
  end.

(** the handle [setInterval] returns: an object, never falsy *)
Definition Timeout : Type := nat.

(** vscode.StatusBarItem, as far as the monitor writes it *)
Record StatusBarItem := {
  text : string;
  tooltip : option string;
  command : option string;
  shown : bool
}.

Record ResourceMonitor := {
  intervalId : option Timeout;
  intervalSeconds : number;
  statusBarItem : StatusBarItem;
  displayOptions : DisplayOptions;
  lastCpuIdle : value;
  lastCpuTotal : value
}.

(** The host: the intervals that are set, each with its period in
    milliseconds, the next handle, and the messages shown by
    [vscode.window.showErrorMessage], oldest first. *)
Record Window := {
  timers : list (Timeout * number);
  nextTimeout : Timeout;
  errorMessages : list string
}.

Definition set_text (t : string) (item : StatusBarItem) : StatusBarItem :=
  {| text := t; tooltip := tooltip item;
     command := command item; shown := shown item |}.

Definition set_tooltip (t : string) (item : StatusBarItem) : StatusBarItem :=
  {| text := text item; tooltip := Some t;
     command := command item; shown := shown item |}.

Definition set_statusBarItem (item : StatusBarItem) (this : ResourceMonitor)
  : ResourceMonitor :=
  {| intervalId := intervalId this; intervalSeconds := intervalSeconds this;
     statusBarItem := item; displayOptions := displayOptions this;
     lastCpuIdle := lastCpuIdle this; lastCpuTotal := lastCpuTotal this |}.

Definition set_intervalId (id : option Timeout) (this : ResourceMonitor)
  : ResourceMonitor :=
  {| intervalId := id; intervalSeconds := intervalSeconds this;
     statusBarItem := statusBarItem this; displayOptions := displayOptions this;
     lastCpuIdle := lastCpuIdle this; lastCpuTotal := lastCpuTotal this |}.

Definition set_intervalSeconds (s : number) (this : ResourceMonitor)
  : ResourceMonitor :=
  {| intervalId := intervalId this; intervalSeconds := s;
     statusBarItem := statusBarItem this; displayOptions := displayOptions this;
     lastCpuIdle := lastCpuIdle this; lastCpuTotal := lastCpuTotal this |}.

Definition set_displayOptions (o : DisplayOptions) (this : ResourceMonitor)
  : ResourceMonitor :=
  {| intervalId := intervalId this; intervalSeconds := intervalSeconds this;
     statusBarItem := statusBarItem this; displayOptions := o;
     lastCpuIdle := lastCpuIdle this; lastCpuTotal := lastCpuTotal this |}.

(** [this.lastCpuIdle = idle; this.lastCpuTotal = total] *)
Definition set_lastCpu (idle total : value) (this : ResourceMonitor)
  : ResourceMonitor :=
  {| intervalId := intervalId this; intervalSeconds := intervalSeconds this;
     statusBarItem := statusBarItem this; displayOptions := displayOptions this;
     lastCpuIdle := idle; lastCpuTotal := total |}.

(** [new ResourceMonitor(intervalSeconds)] *)
Definition create (seconds : number) : ResourceMonitor :=
  {| intervalId := None;
     intervalSeconds := seconds;
     statusBarItem :=
       {| text := ""; tooltip := None;
          command := Some "ssh-remote-monitor.toggleDisplayOptions";
          shown := true |};
     displayOptions := {| showCpu := true; showMemory := true; showLoad := true |};
     lastCpuIdle := Null;
     lastCpuTotal := Null |}.

(** *** The parsers *)

(** [found || fallback] on strings: the empty string is falsy *)
Definition or_else (found : option string) (fallback : string) : string :=
  match found with
  | Some (String c s) => String c s
  | _ => fallback
  end.

(** [parts[i]] *)
Definition element (parts : list number) (i : nat) : value :=
  match nth_error parts i with
  | Some x => Num x
  | None => Undefined
  end.

(** [cpuLine.split(/\s+/).slice(1).map(Number)] *)
Definition cpu_parts (cpuLine : string) : list number :=
  map StringToNumber (tl (split_white cpuLine)).

(** [parts.reduce((a, b) => a + b, 0)] *)
Definition cpu_total (parts : list number) : number :=
  fold_left add parts (of_Z 0).

(** [usage]: [((totalDiff - idleDiff) / totalDiff) * 100] *)
Definition cpu_usage (idleDiff totalDiff : number) : number :=
  mul (div (sub totalDiff idleDiff) totalDiff) (of_Z 100).

(** [parseFloat(usage.toFixed(2))] *)
Definition round2 (usage : number) : number := parseFloat (toFixed usage 2).

(** [parseCPUUsage(data)]: the result and [this] afterwards *)
Definition parseCPUUsage (data : string) (this : ResourceMonitor)
  : number * ResourceMonitor :=
  let lines := split LF data in
  match find (startsWith "cpu ") lines with
  | None | Some EmptyString => (of_Z 0, this)
  | Some cpuLine =>
      let parts := cpu_parts cpuLine in
      let idle := element parts 3 in
      let total := cpu_total parts in
      if is_null (lastCpuIdle this) || is_null (lastCpuTotal this) then
        (of_Z 0, set_lastCpu idle (Num total) this)
      else
        let idleDiff := sub (ToNumber idle) (ToNumber (lastCpuIdle this)) in
        let totalDiff := sub total (ToNumber (lastCpuTotal this)) in
        let this' := set_lastCpu idle (Num total) this in
        if strict_eq totalDiff (of_Z 0) then (of_Z 0, this')
        else (round2 (cpu_usage idleDiff totalDiff), this')
  end.

(** the regular expression [/:\s+(\d+)/] matched at the start of [s]: the
    digits it captures.  [\s+] and [\d+] are greedy, and giving back white
    space cannot make a digit follow. *)
Definition match_here (s : string) : option string :=
  match s with
  | String c r =>
      if Ascii.eqb c ":" then
        match span is_white_space r with
        | (EmptyString, _) => None
        | (_, r') =>
            match span is_digit r' with
            | (EmptyString, _) => None
            | (ds, _) => Some ds
            end
        end
      else None
  | EmptyString => None
  end.

(** [line.match(/:\s+(\d+)/)]: group 1 of the leftmost match *)
Fixpoint match_first (s : string) : option string :=
  match match_here s with
  | Some ds => Some ds
  | None =>
      match s with
      | String _ s' => match_first s'
      | EmptyString => None
      end
  end.

(** [extractValue(line)] *)
Definition extractValue (line : string) : string :=
  match match_first line with
  | Some ds => ds
  | None => "0"
  end.

(** [parseMemoryUsage(data)] *)
Definition parseMemoryUsage (data : string) : number :=
  let lines := split LF data in
  let memTotal :=
    parseInt (extractValue
      (or_else (find (startsWith "MemTotal:") lines) "MemTotal: 0 kB")) in
  let memAvailable :=
    parseInt (extractValue
      (or_else (find (startsWith "MemAvailable:") lines) "MemAvailable: 0 kB")) in
  let used := sub memTotal memAvailable in
  let usage := mul (div used memTotal) (of_Z 100) in
  round2 usage.

(** [parseLoadAverages(data)] *)
Definition parseLoadAverages (data : string) : list number :=
  let parts := split " " data in
  map parseFloat (firstn 3 parts).

(** *** The presenter *)

(** [load.join(", ")] on numbers *)
Definition join_numbers (load : list number) : string :=
  join ", " (map ToString load).

(** the placeholder shown when no metric is selected *)
Definition configure_prompt : string := "$(gear) Configure Monitor".

(** the segments [parts] collects, in the order of the three [push]es *)
Definition segments (o : DisplayOptions) (cpu memory : number)
           (load : list number) : list string :=
  (if showCpu o then ["CPU: " ++ ToString cpu ++ "%"] else []) ++
  (if showMemory o then ["MEM: " ++ ToString memory ++ "%"] else []) ++
  (if showLoad o then ["Load: " ++ join_numbers load] else []).

Definition tooltip_text (cpu memory : number) (load : list number) : string :=
  "Resource information of the remote server" ++ String LF "" ++
  "CPU: " ++ ToString cpu ++ "%" ++ String LF "" ++
  "Memory: " ++ ToString memory ++ "%" ++ String LF "" ++
  "Load: " ++ join_numbers load ++ String LF (String LF "") ++
  "Click to configure displayed metrics".

(** [updateStatusBar(cpu, memory, load)] *)
Definition updateStatusBar (cpu memory : number) (load : list number)
           (this : ResourceMonitor) : ResourceMonitor :=
  let parts := segments (displayOptions this) cpu memory load in
  let item :=
    match parts with
    | [] => set_text configure_prompt (statusBarItem this)
    | _ => set_text (join " | " parts) (statusBarItem this)
    end in
  set_statusBarItem (set_tooltip (tooltip_text cpu memory load) item) this.

(** *** Methods that act on the host

    A method body runs on the monitor and the host and completes normally
    or throws; what it wrote before it threw stays written.  The cycle is
    run in one piece: the suspensions of [await] are not modelled. *)

Record State := {
  this : ResourceMonitor;
  window : Window
}.

(** what was thrown: an [Error] with its message, or another value with
    the string a template literal makes of it *)
Inductive thrown :=
| ErrorObject (message : string)
| OtherValue (shown : string).

Inductive completion (A : Type) :=
| Normal (a : A)
| Throw (e : thrown).
Arguments Normal {A} a.
Arguments Throw {A} e.

Definition M (A : Type) : Type := State -> completion A * State.

Definition ret {A : Type} (a : A) : M A := fun s => (Normal a, s).

Definition bind {A B : Type} (c : M A) (k : A -> M B) : M B :=
  fun s =>
    match c s with
    | (Normal a, s') => k a s'
    | (Throw e, s') => (Throw e, s')
    end.

(** [try { body } catch (error) { handler }] *)
Definition try_catch {A : Type} (body : M A) (handler : thrown -> M A) : M A :=
  fun s =>
    match body s with
    | (Throw e, s') => handler e s'
    | done => done
    end.

Notation "x <- c ;; k" := (bind c (fun x => k))
  (at level 61, c at next level, right associativity).
Notation "c ;; k" := (bind c (fun _ => k))
  (at level 61, right associativity).

(** read a field of [this] *)
Definition get {A : Type} (field : ResourceMonitor -> A) : M A :=
  fun s => (Normal (field (this s)), s).

(** write [this] *)
Definition modify (f : ResourceMonitor -> ResourceMonitor) : M unit :=
  fun s => (Normal tt, {| this := f (this s); window := window s |}).

(** run a method that returns a result and [this] afterwards *)
Definition call {A : Type} (f : ResourceMonitor -> A * ResourceMonitor) : M A :=
  fun s => let '(a, m) := f (this s) in
           (Normal a, {| this := m; window := window s |}).

(** [setInterval(callback, ms)]; the callback is always
    [() => this.collectAndUpdate()] *)
Definition setInterval (ms : number) : M Timeout :=
  fun s =>
    let w := window s in
    (Normal (nextTimeout w),
     {| this := this s;
        window := {| timers := (nextTimeout w, ms) :: timers w;
                     nextTimeout := S (nextTimeout w);
                     errorMessages := errorMessages w |} |}).

(** [clearInterval(id)] *)
Definition clearInterval (id : Timeout) : M unit :=
  fun s =>
    let w := window s in
    (Normal tt,
     {| this := this s;
        window := {| timers := filter (fun t => negb (Nat.eqb (fst t) id)) (timers w);
                     nextTimeout := nextTimeout w;
                     errorMessages := errorMessages w |} |}).

(** [vscode.window.showErrorMessage(message)] *)
Definition showErrorMessage (message : string) : M unit :=
  fun s =>
    let w := window s in
    (Normal tt,
     {| this := this s;
        window := {| timers := timers w;
                     nextTimeout := nextTimeout w;
                     errorMessages := errorMessages w ++ [message] |} |}).

(** [stop()] *)
Definition stop : M unit :=
  id <- get intervalId;;
  match id with
  | Some t =>
      clearInterval t;;
      modify (set_intervalId None);;
      modify (fun m => set_statusBarItem (set_text "" (statusBarItem m)) m)
  | None => ret tt
  end.

(** [start()] *)
Definition start : M unit :=
  id <- get intervalId;;
  match id with
  | Some _ => stop
  | None => ret tt
  end;;
  seconds <- get intervalSeconds;;
  t <- setInterval (mul seconds (of_Z 1000));;
  modify (set_intervalId (Some t)).

(** [updateInterval(newIntervalSeconds)] *)
Definition updateInterval (newIntervalSeconds : number) : M unit :=
  id <- get intervalId;;
  let wasRunning := match id with Some _ => true | None => false end in
  (if wasRunning then stop else ret tt);;
  modify (set_intervalSeconds newIntervalSeconds);;
  (if wasRunning then start else ret tt).

(** The files of the host: what [fs.readFile(path, "utf-8")] resolves
    to, or what it rejects with. *)
Definition FileSystem : Type := string -> string + thrown.

(** [await fs.readFile(path, "utf-8")] *)
Definition readFile (fs : FileSystem) (path : string) : M string :=
  fun s =>
    match fs path with
    | inl data => (Normal data, s)
    | inr e => (Throw e, s)
    end.

(** [error instanceof Error ? error.message : error], in a template literal *)
Definition error_text (error : thrown) : string :=
  match error with
  | ErrorObject message => message
  | OtherValue shown => shown
  end.

(** [collectAndUpdate()] *)
Definition collectAndUpdate (fs : FileSystem) : M unit :=
  try_catch
    (cpuData <- readFile fs "/proc/stat";;
     memData <- readFile fs "/proc/meminfo";;
     loadData <- readFile fs "/proc/loadavg";;
     cpuUsage <- call (parseCPUUsage cpuData);;
     let memoryUsage := parseMemoryUsage memData in
     let loadAverages := parseLoadAverages loadData in
     modify (updateStatusBar cpuUsage memoryUsage loadAverages))
    (fun error =>
       showErrorMessage ("Resource collection error: " ++ error_text error)).

(** [showDisplayOptionsMenu()], given what the quick pick resolves to: the
    labels of the selected items, or nothing when it was dismissed *)
Definition showDisplayOptionsMenu (fs : FileSystem)
           (selectedOptions : option (list string)) : M unit :=
  match selectedOptions with
  | Some selected =>
      modify (set_displayOptions
                {| showCpu := existsb (startsWith "CPU") selected;
                   showMemory := existsb (startsWith "Memory") selected;
                   showLoad := existsb (startsWith "Load") selected |});;
      collectAndUpdate fs
  | None => ret tt
  end.

(** *** What the statements below speak of *)

(** the aggregate line of [data], if it has one: [cpuLine] *)
Definition aggregate_line (data : string) : option string :=
  find (startsWith "cpu ") (split LF data).

(** the idle counter of an aggregate line, its 4th numeric field: [idle] *)
Definition sample_idle (cpuLine : string) : value :=
  element (cpu_parts cpuLine) 3.

(** the total of an aggregate line, the sum of its numeric fields: [total] *)
Definition sample_total (cpuLine : string) : number :=
  cpu_total (cpu_parts cpuLine).

(** neither NaN nor an infinity *)
Definition is_finite (x : number) : bool :=
  match x with
  | S754_zero _ | S754_finite _ _ _ => true
  | _ => false
  end.

(** every code unit of [s] satisfies [p] *)
Definition all_chars (p : ascii -> bool) (s : string) : bool :=
  forallb p (list_ascii_of_string s).

(** a binary64 value: a canonical mantissa and an exponent in range *)
Definition valid (x : number) : Prop := valid_binary prec emax x = true.

(** a counter that holds a binary64 value, if it holds a number *)
Definition valid_value (v : value) : Prop :=
  match v with
  | Num x => valid x
  | _ => True
  end.

(** [0 <= r && r <= 100] *)
Definition in_range (r : number) : bool := le (of_Z 0) r && le r (of_Z 100).

(** the lines of [ls], each ended by a line feed but the last *)
Definition unlines (ls : list string) : string := join (String LF "") ls.

End Monitor.

(** ** The inputs of the test suite (src/test/monitor.test.ts) *)

Module Examples.
Import JsString JsNumber Monitor.

Definition cpuData1 : string :=
  unlines [ "cpu  1000 200 300 4000 500 600 700 800";
            "cpu0 100 20 30 400 50 60 70 80";
            "cpu1 100 20 30 400 50 60 70 80";
            "intr 123456789";
            "ctxt 123456789";
            "btime 1234567890";
            "processes 12345";
            "procs_running 1";
            "procs_blocked 0" ].

Definition cpuData2 : string :=
  unlines [ "cpu  1500 300 400 4500 600 700 800 900";
            "cpu0 150 30 40 450 60 70 80 90";
            "cpu1 150 30 40 450 60 70 80 90";
            "intr 123456790";
            "ctxt 123456790";
            "btime 1234567890";
            "processes 12346";
            "procs_running 2";
            "procs_blocked 0" ].

Definition memData : string :=
  unlines [ "MemTotal:       16384000 kB";
            "MemFree:         8192000 kB";
            "MemAvailable:    6553600 kB";
            "Buffers:          819200 kB";
            "Cached:          1638400 kB";
            "SwapCached:            0 kB";
            "Active:          4915200 kB";
            "Inactive:        2457600 kB" ].

Definition loadData : string := "1.25 0.75 0.50 2/123 12345".

(** a host on which the three files read as above *)
Definition procfs : FileSystem :=
  fun path =>
    if String.eqb path "/proc/stat" then inl cpuData1
    else if String.eqb path "/proc/meminfo" then inl memData
    else if String.eqb path "/proc/loadavg" then inl loadData
    else inr (ErrorObject ("ENOENT: no such file or directory, open '" ++ path ++ "'")).

(** a host without /proc/meminfo *)
Definition procfs_without_meminfo : FileSystem :=
  fun path =>
    if String.eqb path "/proc/meminfo"
    then inr (ErrorObject "ENOENT: no such file or directory, open '/proc/meminfo'")
    else procfs path.

(** a monitor just constructed, with the default interval, on a host with
    no interval set and no message shown *)
Definition fresh : State :=
  {| this := create (of_Z 1);
     window := {| timers := []; nextTimeout := O; errorMessages := [] |} |}.

(** the numbers [0.75] and [0.5] *)
Definition three_quarters : number := round_decimal false 75 (-2).
Definition one_half : number := round_decimal false 5 (-1).

(** the host after one more message was shown *)
Definition with_message (message : string) (s : State) : State :=
  {| this := this s;
     window := {| timers := timers (window s);
                  nextTimeout := nextTimeout (window s);
                  errorMessages := errorMessages (window s) ++ [message] |} |}.

(** a monitor that is stopped and shows the result of one cycle *)
Definition shown_while_stopped : State :=
  snd (collectAndUpdate procfs fresh).

End Examples.


(** ** The display menu, the extension and runs of the monitor *)

Module Extension.
Import JsString JsNumber Monitor.

(** the labels of the items [showDisplayOptionsMenu] offers, in its order:
    a check mark follows the name of a metric that is shown *)
Definition quickPickLabels (o : DisplayOptions) : list string :=
  [ "CPU " ++ (if showCpu o then "$(check)" else "");
    "Memory " ++ (if showMemory o then "$(check)" else "");
    "Load Average " ++ (if showLoad o then "$(check)" else "") ].

(** the labels of the offered items that the user leaves selected when
    [wanted] is what the user wants to see *)
Definition selection (wanted o : DisplayOptions) : list string :=
  (if showCpu wanted then ["CPU " ++ (if showCpu o then "$(check)" else "")]
   else []) ++
  (if showMemory wanted
   then ["Memory " ++ (if showMemory o then "$(check)" else "")] else []) ++
  (if showLoad wanted
   then ["Load Average " ++ (if showLoad o then "$(check)" else "")] else []).

(** [activate(context)] (src/extension.ts), given [vscode.env.remoteName]
    and the configured [monitorIntervalSeconds]: on a remote host a monitor
    is made and started, elsewhere nothing is *)
Definition activate (remoteName : option string) (intervalSeconds : number)
           (w : Window) : option State :=
  match remoteName with
  | Some (String _ _) =>
      Some (snd (start {| this := create intervalSeconds; window := w |}))
  | _ => None
  end.

(** the listener [activate] subscribes to configuration changes:
    [intervalSeconds] is the interval read at activation, [affects] what
    [e.affectsConfiguration] answers and [newIntervalSeconds] the interval
    configured now *)
Definition onDidChangeConfiguration (intervalSeconds : number) (affects : bool)
           (newIntervalSeconds : number) : M unit :=
  if affects then
    if negb (strict_eq newIntervalSeconds intervalSeconds)
    then updateInterval newIntervalSeconds
    else ret tt
  else ret tt.

(** the disposable [activate] registers: the monitor is stopped when the
    extension is deactivated *)
Definition dispose : M unit := stop.

(** what can happen to a monitor: its public methods and its menu *)
Inductive action :=
| Start
| Stop
| UpdateInterval (newIntervalSeconds : number)
| CollectAndUpdate (fs : FileSystem)
| ShowDisplayOptionsMenu (fs : FileSystem) (selectedOptions : option (list string)).

Definition perform (a : action) : M unit :=
  match a with
  | Start => start
  | Stop => stop
  | UpdateInterval n => updateInterval n
  | CollectAndUpdate fs => collectAndUpdate fs
  | ShowDisplayOptionsMenu fs selected => showDisplayOptionsMenu fs selected
  end.

(** the state after a run of actions, one after the other *)
Definition run (actions : list action) (s : State) : State :=
  fold_left (fun s a => snd (perform a s)) actions s.

(** the calls of [parseCPUUsage] on the inputs [datas], one after the
    other: the monitor afterwards *)
Definition parse_all (datas : list string) (m : ResourceMonitor)
  : ResourceMonitor :=
  fold_left (fun m data => snd (parseCPUUsage data m)) datas m.

(** no code unit of [s] is [c] *)
Definition without (c : ascii) (s : string) : bool :=
  all_chars (fun x => negb (Ascii.eqb x c)) s.

(** the number of code units after the first point of [s]; none without a
    point *)
Fixpoint fraction_length (s : string) : nat :=
  match s with
  | EmptyString => O
  | String c r => if Ascii.eqb c "." then String.length r else fraction_length r
  end.

(** [memTotal] and [memAvailable] of [parseMemoryUsage] *)
Definition memTotal (data : string) : number :=
  parseInt (extractValue
    (or_else (find (startsWith "MemTotal:") (split LF data)) "MemTotal: 0 kB")).

Definition memAvailable (data : string) : number :=
  parseInt (extractValue
    (or_else (find (startsWith "MemAvailable:") (split LF data))
             "MemAvailable: 0 kB")).

(** the two counters are [null] together *)
Definition counters_paired (m : ResourceMonitor) : Prop :=
  is_null (lastCpuIdle m) = is_null (lastCpuTotal m).

(** the monitor holds no timer and none is set, or it holds the one timer
    that is set, and that timer has the period of its interval *)
Definition one_timer (s : State) : Prop :=
  match intervalId (this s) with
  | None => timers (window s) = []
  | Some t =>
      timers (window s) = [(t, mul (intervalSeconds (this s)) (of_Z 1000))]
  end.

(** a window in which no timer is set *)
Definition quiet (w : Window) : Prop := timers w = [].

(** the actions that schedule: [start], [stop] and [updateInterval] *)
Definition scheduling (a : action) : bool :=
  match a with
  | Start | Stop | UpdateInterval _ => true
  | CollectAndUpdate _ | ShowDisplayOptionsMenu _ _ => false
  end.

(** what the scheduling actions leave alone: the CPU counters, the
    selection of metrics, the tooltip and the messages *)
Definition same_data (s s' : State) : Prop :=
  lastCpuIdle (this s') = lastCpuIdle (this s) /\
  lastCpuTotal (this s') = lastCpuTotal (this s) /\
  displayOptions (this s') = displayOptions (this s) /\
  tooltip (statusBarItem (this s')) = tooltip (statusBarItem (this s)) /\
  errorMessages (window s') = errorMessages (window s).

(** [x] and [y] are the same zero or the same finite number *)
Definition same_finite (x y : number) : bool :=
  match x, y with
  | S754_zero a, S754_zero b => Bool.eqb a b
  | S754_finite a m e, S754_finite b m' e' =>
      Bool.eqb a b && Pos.eqb m m' && Z.eqb e e'
  | _, _ => false
  end.

(** the number of [n] hundredths is shown with at most two decimals, reads
    back from what is shown, and is its own rounding to two decimals *)
Definition shown_well (n : nat) : bool :=
  let x := parseFloat (point_notation (Z.of_nat n) 2) in
  (fraction_length (ToString x) <=? 2)%nat &&
  same_finite (parseFloat (ToString x)) x &&
  same_finite (round2 x) x.

End Extension.

(** ** Exact values *)

(** the real number [m * 2 ^ e], the value of a mantissa and an exponent *)
Definition F2R (m e : Z) : R := (IZR m * powerRZ 2 e)%R.

(** * Properties *)

Import JsString JsNumber Monitor Examples Extension.

(** ** Strings and lists *)

Lemma split_not_nil (sep : ascii) (s : string) : split sep s <> [].
Proof.
  induction s as [|c s IH]; simpl; [discriminate|].
  destruct (Ascii.eqb c sep); [discriminate|].
  destruct (split sep s); [contradiction|discriminate].
Qed.

Lemma split_length_pos (sep : ascii) (s : string) :
  (1 <= List.length (split sep s))%nat.
Proof.
  pose proof (split_not_nil sep s) as H.
  destruct (split sep s); [contradiction|simpl; lia].
Qed.

(** the line [find] returns is not the empty string, so [!cpuLine] is false *)
Lemma find_startsWith_truthy (p : string) (c : ascii) (lines : list string)
      (line : string) :
  find (startsWith (String c p)) lines = Some line ->
  exists d rest, line = String d rest.
Proof.
  intros H. apply find_some in H. destruct H as [_ H].
  destruct line as [|d rest]; [discriminate H|eauto].
Qed.

(** ** The CPU parser, by cases *)

Lemma parseCPUUsage_absent (data : string) (m : ResourceMonitor) :
  aggregate_line data = None ->
  parseCPUUsage data m = (of_Z 0, m).
Proof.
  unfold aggregate_line, parseCPUUsage. intros ->. reflexivity.
Qed.

Lemma parseCPUUsage_found (data : string) (m : ResourceMonitor) (line : string) :
  aggregate_line data = Some line ->
  parseCPUUsage data m =
    let m' := set_lastCpu (sample_idle line) (Num (sample_total line)) m in
    if is_null (lastCpuIdle m) || is_null (lastCpuTotal m) then (of_Z 0, m')
    else
      let idleDiff := sub (ToNumber (sample_idle line)) (ToNumber (lastCpuIdle m)) in
      let totalDiff := sub (sample_total line) (ToNumber (lastCpuTotal m)) in
      if strict_eq totalDiff (of_Z 0) then (of_Z 0, m')
      else (round2 (cpu_usage idleDiff totalDiff), m').
Proof.
  unfold aggregate_line, parseCPUUsage. intros H. rewrite H.
  apply find_startsWith_truthy in H. destruct H as (d & rest & ->).
  reflexivity.
Qed.

(** after a call that found an aggregate line, both counters are numbers or
    [undefined], never [null] *)
Lemma parseCPUUsage_primes (data : string) (m : ResourceMonitor) (line : string) :
  aggregate_line data = Some line ->
  lastCpuIdle (snd (parseCPUUsage data m)) = sample_idle line /\
  lastCpuTotal (snd (parseCPUUsage data m)) = Num (sample_total line).
Proof.
  intros H. rewrite (parseCPUUsage_found _ _ _ H). cbv zeta.
  destruct (is_null (lastCpuIdle m) || is_null (lastCpuTotal m)); [split; reflexivity|].
  destruct (strict_eq _ _); split; reflexivity.
Qed.

Lemma sample_idle_not_null (line : string) : is_null (sample_idle line) = false.
Proof.
  unfold sample_idle, element. destruct (nth_error _ _); reflexivity.
Qed.



(** ** C1 *)



(** ** C3 *)



(** ** C4 *)


(** ** C10 *)

(** C10. [parseLoadAverages] returns between 1 and 3 numbers on every
    input: a split on a space has at least one piece.  On the empty string
    the result is one NaN. *)
Theorem parseLoadAverages_length (data : string) :
  (1 <= List.length (parseLoadAverages data) <= 3)%nat /\
  parseLoadAverages "" = [NaN].
Proof.
  split; [|reflexivity].
  unfold parseLoadAverages. rewrite length_map, length_firstn.
  pose proof (split_length_pos " " data). lia.
Qed.

(** ** C7 *)

(** a token with no decimal literal at its start parses to NaN *)
Lemma parseFloat_no_literal (token : string) :
  scan_decimal (trim_start token) = None -> parseFloat token = NaN.
Proof. unfold parseFloat. intros ->. reflexivity. Qed.

(** C7. [parseLoadAverages] splits on single spaces and parses each of the
    first three pieces with [parseFloat]: as many numbers as there are
    pieces, up to three, and NaN for a piece that starts with no decimal
    literal.  ["1.25 0.75 0.50 2/123 12345"] gives [1.25, 0.75, 0.5] and
    ["invalid"] gives one NaN. *)
Theorem parseLoadAverages_tokens :
  (forall data : string,
      List.length (parseLoadAverages data) =
        Nat.min 3 (List.length (split " " data))) /\
  (forall (data : string) (i : nat) (token : string),
      (i < 3)%nat ->
      nth_error (split " " data) i = Some token ->
      nth_error (parseLoadAverages data) i = Some (parseFloat token) /\
      (scan_decimal (trim_start token) = None ->
       nth_error (parseLoadAverages data) i = Some NaN)) /\
  parseLoadAverages "1.25 0.75 0.50 2/123 12345" =
    [round_decimal false 125 (-2); three_quarters; one_half] /\
  map ToString (parseLoadAverages "1.25 0.75 0.50 2/123 12345") =
    ["1.25"; "0.75"; "0.5"] /\
  parseLoadAverages "invalid" = [NaN].
Proof.
  split; [|split; [|repeat split; vm_compute; reflexivity]].
  - intros data. unfold parseLoadAverages.
    now rewrite length_map, length_firstn.
  - intros data i token Hi Hnth.
    assert (nth_error (parseLoadAverages data) i = Some (parseFloat token)) as E.
    { unfold parseLoadAverages. rewrite nth_error_map, nth_error_firstn.
      apply Nat.ltb_lt in Hi. rewrite Hi, Hnth. reflexivity. }
    split; [exact E|]. intros Hnone. rewrite E.
    now rewrite (parseFloat_no_literal _ Hnone).
Qed.

Lemma parseLoadAverages_tokens_witness :
  nth_error (parseLoadAverages "1.25 abc") 1 = Some (parseFloat "abc") /\
  nth_error (parseLoadAverages "1.25 abc") 1 = Some NaN.
Proof.
  destruct parseLoadAverages_tokens as (_ & H & _).
  destruct (H "1.25 abc" 1%nat "abc") as [H1 H2];
    [repeat constructor|reflexivity|].
  split; [exact H1|apply H2; reflexivity].
Defined.

(** ** C6 *)

Lemma all_chars_cons (p : ascii -> bool) (c : ascii) (s : string) :
  all_chars p (String c s) = true -> p c = true /\ all_chars p s = true.
Proof. unfold all_chars. simpl. intros H. now apply andb_prop in H. Qed.

Lemma span_app (p : ascii -> bool) (a b : string) :
  all_chars p a = true ->
  match b with String c _ => p c = false | EmptyString => True end ->
  span p (a ++ b) = (a, b).
Proof.
  intros Ha Hb. induction a as [|c a IH]; simpl.
  - destruct b as [|c r]; [reflexivity|]. simpl. now rewrite Hb.
  - apply all_chars_cons in Ha. destruct Ha as [Hc Ha].
    rewrite Hc, (IH Ha). reflexivity.
Qed.

Lemma append_empty (s : string) : s ++ "" = s.
Proof. induction s as [|c s IH]; simpl; [reflexivity|now rewrite IH]. Qed.

Lemma append_assoc (a b c : string) : (a ++ b) ++ c = a ++ b ++ c.
Proof. induction a as [|x a IH]; simpl; [reflexivity|now rewrite IH]. Qed.

Lemma span_all (p : ascii -> bool) (a : string) :
  all_chars p a = true -> span p a = (a, "").
Proof.
  intros Ha. rewrite <- (append_empty a) at 1. now apply span_app.
Qed.

(** what a decimal digit is not *)
Lemma digit_char (c : ascii) :
  is_digit c = true ->
  is_white_space c = false /\ is_radix_digit 10 c = true /\
  Ascii.eqb c "-" = false /\ Ascii.eqb c "+" = false /\
  Ascii.eqb c "x" = false /\ Ascii.eqb c "X" = false.
Proof.
  destruct c as [[] [] [] [] [] [] [] []]; vm_compute; intros H;
    try discriminate H; repeat split.
Qed.

Lemma all_digits_radix (ds : string) :
  all_chars is_digit ds = true -> all_chars (is_radix_digit 10) ds = true.
Proof.
  induction ds as [|c ds IH]; [reflexivity|].
  intros H. apply all_chars_cons in H. destruct H as [Hc H].
  unfold all_chars in *. simpl.
  destruct (digit_char c Hc) as (_ & -> & _). now rewrite IH.
Qed.

(** [parseInt] of a run of decimal digits is the integer they write *)
Lemma parseInt_digits (ds : string) :
  ds <> "" -> all_chars is_digit ds = true ->
  parseInt ds = round_ratio false (digits_value 10 ds 0) 1.
Proof.
  intros Hne Hds. destruct ds as [|c ds]; [contradiction|].
  pose proof (all_digits_radix _ Hds) as Hr.
  apply all_chars_cons in Hds. destruct Hds as [Hc Hds].
  destruct (digit_char c Hc) as (Hw & _ & Hm & Hp & _).
  unfold parseInt. simpl trim_start. rewrite Hw.
  unfold scan_sign. rewrite Hm, Hp.
  assert ((let '(radix, r1) :=
             match String c ds with
             | String c0 (String c1 r') =>
                 if Ascii.eqb c0 "0" && (Ascii.eqb c1 "x" || Ascii.eqb c1 "X")
                 then (16, r') else (10, String c ds)
             | _ => (10, String c ds)
             end in
           match span (is_radix_digit radix) r1 with
           | (EmptyString, _) => NaN
           | (ds0, _) => round_ratio false (digits_value radix ds0 0) 1
           end) = round_ratio false (digits_value 10 (String c ds) 0) 1) as E.
  { destruct ds as [|c1 r'].
    - rewrite (span_all _ _ Hr). reflexivity.
    - apply all_chars_cons in Hds. destruct Hds as [Hc1 _].
      destruct (digit_char c1 Hc1) as (_ & _ & _ & _ & -> & ->).
      rewrite andb_false_r. rewrite (span_all _ _ Hr). reflexivity. }
  exact E.
Qed.

Lemma match_first_eq (s : string) :
  match_first s =
    match match_here s with
    | Some ds => Some ds
    | None =>
        match s with
        | String _ s' => match_first s'
        | EmptyString => None
        end
    end.
Proof. destruct s; reflexivity. Qed.




(** ** C8 *)

(** C8. For the sample [{cpu: 50, memory: 30, load: [1.0, 0.75, 0.5]}] and
    all three flags set, the status text is
    ["CPU: 50% | MEM: 30% | Load: 1, 0.75, 0.5"]: the segments come in the
    order CPU, memory, load, joined by [" | "].  With no flag set the
    status text is the prompt to configure the monitor, whatever the
    sample, and not the empty string. *)
Theorem updateStatusBar_text :
  (forall m : ResourceMonitor,
      displayOptions m = {| showCpu := true; showMemory := true; showLoad := true |} ->
      text (statusBarItem
              (updateStatusBar (of_Z 50) (of_Z 30)
                               [of_Z 1; three_quarters; one_half] m)) =
        "CPU: 50% | MEM: 30% | Load: 1, 0.75, 0.5") /\
  (forall (cpu memory : number) (load : list number) (m : ResourceMonitor),
      displayOptions m = {| showCpu := false; showMemory := false; showLoad := false |} ->
      text (statusBarItem (updateStatusBar cpu memory load m)) =
        "$(gear) Configure Monitor" /\
      text (statusBarItem (updateStatusBar cpu memory load m)) <> "") /\
  (forall (cpu memory : number) (load : list number) (m : ResourceMonitor),
      showCpu (displayOptions m) = true ->
      showMemory (displayOptions m) = true ->
      showLoad (displayOptions m) = true ->
      text (statusBarItem (updateStatusBar cpu memory load m)) =
        "CPU: " ++ ToString cpu ++ "%" ++ " | " ++
        "MEM: " ++ ToString memory ++ "%" ++ " | " ++
        "Load: " ++ join ", " (map ToString load)).
Proof.
  split; [|split].
  - intros m H. unfold updateStatusBar. rewrite H. vm_compute. reflexivity.
  - intros cpu memory load m H. unfold updateStatusBar. rewrite H.
    simpl. split; [reflexivity|discriminate].
  - intros cpu memory load m H1 H2 H3. unfold updateStatusBar, segments.
    rewrite H1, H2, H3. simpl.
    rewrite !append_assoc. reflexivity.
Qed.

Lemma updateStatusBar_text_witness :
  text (statusBarItem
          (updateStatusBar (of_Z 50) (of_Z 30) [of_Z 1; three_quarters; one_half]
                           (this fresh))) =
    "CPU: 50% | MEM: 30% | Load: 1, 0.75, 0.5" /\
  text (statusBarItem
          (updateStatusBar (of_Z 50) (of_Z 30) [of_Z 1; three_quarters; one_half]
             (set_displayOptions
                {| showCpu := false; showMemory := false; showLoad := false |}
                (this fresh)))) =
    "$(gear) Configure Monitor".
Proof.
  destruct updateStatusBar_text as (H1 & H2 & _).
  split.
  - apply (H1 (this fresh)). reflexivity.
  - apply (H2 (of_Z 50) (of_Z 30) [of_Z 1; three_quarters; one_half]
              (set_displayOptions
                 {| showCpu := false; showMemory := false; showLoad := false |}
                 (this fresh))).
    reflexivity.
Defined.

(** ** C2 *)

(** C2. When one of the three reads of [collectAndUpdate] rejects, the
    cycle ends there: the monitor is as it was, status text, tooltip and
    CPU counters included; one message is shown, made of the message of the
    first read that failed; and [collectAndUpdate] completes normally. *)
Theorem collectAndUpdate_read_failure
        (fs : FileSystem) (s : State) (error : thrown) :
  fs "/proc/stat" = inr error \/
  (exists cpuData, fs "/proc/stat" = inl cpuData /\
                   fs "/proc/meminfo" = inr error) \/
  (exists cpuData memData,
      fs "/proc/stat" = inl cpuData /\ fs "/proc/meminfo" = inl memData /\
      fs "/proc/loadavg" = inr error) ->
  collectAndUpdate fs s =
    (Normal tt,
     with_message ("Resource collection error: " ++ error_text error) s).
Proof.
  unfold collectAndUpdate, try_catch, bind, readFile.
  intros [H|[(c & Hc & H)|(c & d & Hc & Hd & H)]].
  - rewrite H. reflexivity.
  - rewrite Hc, H. reflexivity.
  - rewrite Hc, Hd, H. reflexivity.
Qed.

Lemma collectAndUpdate_read_failure_witness :
  collectAndUpdate procfs_without_meminfo fresh =
    (Normal tt,
     with_message
       "Resource collection error: ENOENT: no such file or directory, open '/proc/meminfo'"
       fresh).
Proof.
  apply (collectAndUpdate_read_failure procfs_without_meminfo fresh
           (ErrorObject "ENOENT: no such file or directory, open '/proc/meminfo'")).
  right. left. exists cpuData1. split; reflexivity.
Defined.

(** ** C9 *)

(** C9, as the source has it.  After [stop()] the monitor holds no timer,
    and the interval it held is no longer set.  When it held one, the
    status text is the empty string afterwards; when it held none, [stop()]
    changes nothing, the status text included.  A second [stop()] in a row
    changes nothing and completes normally, as the first does. *)
Theorem stop_idempotent (s : State) :
  let s1 := snd (stop s) in
  fst (stop s) = Normal tt /\
  intervalId (this s1) = None /\
  (forall t : Timeout,
      intervalId (this s) = Some t ->
      ~ In t (map fst (timers (window s1))) /\
      text (statusBarItem (this s1)) = "") /\
  (intervalId (this s) = None -> s1 = s) /\
  stop s1 = (Normal tt, s1).
Proof.
  destruct s as [m w]. unfold stop, bind, get. simpl.
  destruct (intervalId m) as [t|] eqn:Hid; simpl.
  - split; [reflexivity|split; [reflexivity|split; [|split; [discriminate|reflexivity]]]].
    intros t' [= <-]. split; [|reflexivity].
    rewrite in_map_iff. intros ([t1 ms] & Ht & Hin). simpl in Ht. subst t1.
    apply filter_In in Hin. destruct Hin as [_ Hin]. simpl in Hin.
    now rewrite Nat.eqb_refl in Hin.
  - rewrite Hid.
    split; [reflexivity|split; [reflexivity|split; [discriminate|split; reflexivity]]].
Qed.

Lemma stop_idempotent_witness :
  let running := snd (start fresh) in
  intervalId (this running) = Some O /\
  ~ In O (map fst (timers (window (snd (stop running))))) /\
  text (statusBarItem (this (snd (stop running)))) = "" /\
  snd (stop fresh) = fresh.
Proof.
  destruct (stop_idempotent (snd (start fresh))) as (_ & _ & H & _).
  destruct (stop_idempotent fresh) as (_ & _ & _ & H' & _).
  destruct (H O eq_refl) as [H1 H2].
  split; [reflexivity|split; [exact H1|split; [exact H2|]]].
  apply H'. reflexivity.
Defined.

(** C9 as stated fails: on a stopped monitor that shows a status text,
    [stop()] leaves that text. *)
Lemma stop_keeps_text_when_stopped :
  intervalId (this shown_while_stopped) = None /\
  text (statusBarItem (this (snd (stop shown_while_stopped)))) =
    "CPU: 0% | MEM: 60% | Load: 1.25, 0.75, 0.5" /\
  text (statusBarItem (this (snd (stop shown_while_stopped)))) <> "".
Proof.
  vm_compute. repeat split; discriminate.
Qed.

(** ** Rounding to binary64

    What [binary_round_aux] returns, as real numbers: a binary64 value, not
    above a binary64 value that the exact result does not exceed. *)

(** *** Powers of two *)

Lemma fexp_eq (e : Z) : fexp prec emax e = Z.max (e - 53) (-1074).
Proof. reflexivity. Qed.

Lemma fexp_mono (a b : Z) : a <= b -> fexp prec emax a <= fexp prec emax b.
Proof. rewrite !fexp_eq. lia. Qed.

Lemma pw_pos (e : Z) : (0 < powerRZ 2 e)%R.
Proof. apply powerRZ_lt. lra. Qed.

Lemma pw_add (a b : Z) : powerRZ 2 (a + b) = (powerRZ 2 a * powerRZ 2 b)%R.
Proof. apply powerRZ_add. lra. Qed.

Lemma pw_IZR (n : Z) : 0 <= n -> powerRZ 2 n = IZR (2 ^ n).
Proof.
  intros H. rewrite <- (Z2Nat.id n H) at 2. rewrite <- pow_IZR.
  destruct n as [|p|p]; [reflexivity| |lia]. reflexivity.
Qed.

Lemma pw_le (a b : Z) : a <= b -> (powerRZ 2 a <= powerRZ 2 b)%R.
Proof.
  intros H. replace b with (a + (b - a)) by lia. rewrite pw_add.
  rewrite (pw_IZR (b - a)) by lia.
  assert (1 <= 2 ^ (b - a)) as H1 by (apply Z.lt_pred_le; apply Z.pow_pos_nonneg; lia).
  apply IZR_le in H1. pose proof (pw_pos a). nra.
Qed.

Lemma pw_lt_inv (a b : Z) : (powerRZ 2 a < powerRZ 2 b)%R -> a < b.
Proof.
  intros H. destruct (Z_lt_le_dec a b) as [L|L]; [exact L|].
  apply pw_le in L. lra.
Qed.

Lemma F2R_shift (m e k : Z) : 0 <= k -> F2R (m * 2 ^ k) e = F2R m (e + k).
Proof.
  intros H. unfold F2R. rewrite mult_IZR, <- (pw_IZR k H).
  rewrite (Z.add_comm e k), pw_add. ring.
Qed.

Lemma F2R_le (m1 m2 e : Z) : m1 <= m2 -> (F2R m1 e <= F2R m2 e)%R.
Proof.
  intros H. unfold F2R. apply IZR_le in H. pose proof (pw_pos e). nra.
Qed.

Lemma F2R_lt_inv (m1 m2 e : Z) : (F2R m1 e < F2R m2 e)%R -> m1 < m2.
Proof.
  intros H. destruct (Z_lt_le_dec m1 m2) as [L|L]; [exact L|].
  apply (F2R_le _ _ e) in L. lra.
Qed.

Lemma F2R_le_inv (m1 m2 e : Z) : (F2R m1 e <= F2R m2 e)%R -> m1 <= m2.
Proof.
  intros H. destruct (Z_le_gt_dec m1 m2) as [L|L]; [exact L|].
  assert (m2 + 1 <= m1) as L' by lia. apply (F2R_le _ _ e) in L'.
  unfold F2R in *. rewrite plus_IZR in L'. pose proof (pw_pos e). nra.
Qed.

(** *** Digits *)

Lemma digits2_pos_size (p : positive) : digits2_pos p = Pos.size p.
Proof. induction p; simpl; congruence. Qed.

Lemma Zdigits2_log2 (m : Z) : 0 < m -> Zdigits2 m = Z.log2 m + 1.
Proof.
  destruct m as [|p|p]; try lia. intros _. simpl.
  rewrite digits2_pos_size. destruct p; simpl; lia.
Qed.

Lemma Zdigits2_bounds (m : Z) :
  0 < m -> 2 ^ (Zdigits2 m - 1) <= m < 2 ^ Zdigits2 m.
Proof.
  intros H. rewrite (Zdigits2_log2 m H).
  replace (Z.log2 m + 1 - 1) with (Z.log2 m) by lia.
  pose proof (Z.log2_spec m H). rewrite <- Z.add_1_r in H0. exact H0.
Qed.

Lemma Zdigits2_unique (m d : Z) :
  2 ^ (d - 1) <= m < 2 ^ d -> 0 < d -> Zdigits2 m = d.
Proof.
  intros H Hd.
  assert (0 < m) as Hm.
  { assert (0 < 2 ^ (d - 1)) by (apply Z.pow_pos_nonneg; lia). lia. }
  rewrite (Zdigits2_log2 m Hm).
  rewrite (Z.log2_unique m (d - 1)); try lia.
  replace (Z.succ (d - 1)) with d by lia. exact H.
Qed.

Lemma Zdigits2_pos (m : Z) : 0 < m -> 0 < Zdigits2 m.
Proof. intros H. rewrite (Zdigits2_log2 m H). pose proof (Z.log2_nonneg m). lia. Qed.

(** the magnitude of [m * 2 ^ e] *)
Lemma F2R_bounds (m e : Z) :
  0 < m ->
  (powerRZ 2 (Zdigits2 m + e - 1) <= F2R m e < powerRZ 2 (Zdigits2 m + e))%R.
Proof.
  intros H. pose proof (Zdigits2_bounds m H) as [L U].
  pose proof (Zdigits2_pos m H) as Hd.
  apply IZR_le in L. apply IZR_lt in U.
  rewrite <- pw_IZR in L, U by lia.
  unfold F2R. pose proof (pw_pos e).
  replace (Zdigits2 m + e - 1) with ((Zdigits2 m - 1) + e) by lia.
  rewrite !pw_add. split; nra.
Qed.

Lemma magnitude_le (m1 e1 m2 e2 : Z) :
  0 < m1 -> 0 < m2 -> (F2R m1 e1 <= F2R m2 e2)%R ->
  Zdigits2 m1 + e1 <= Zdigits2 m2 + e2.
Proof.
  intros H1 H2 H.
  pose proof (F2R_bounds m1 e1 H1) as [L1 _].
  pose proof (F2R_bounds m2 e2 H2) as [_ U2].
  assert (Zdigits2 m1 + e1 - 1 < Zdigits2 m2 + e2); [|lia].
  apply pw_lt_inv. lra.
Qed.

(** *** Shifting right *)

Lemma loc_of_shr_record_of_loc (m : Z) (l : location) :
  loc_of_shr_record (shr_record_of_loc m l) = l.
Proof. destruct l as [|[]]; reflexivity. Qed.

Lemma shr_m_of_loc (m : Z) (l : location) : shr_m (shr_record_of_loc m l) = m.
Proof. destruct l as [|[]]; reflexivity. Qed.

Lemma shr_1_fields (mrs : shr_record) :
  0 <= shr_m mrs ->
  shr_1 mrs =
    {| shr_m := Z.div2 (shr_m mrs);
       shr_r := Z.odd (shr_m mrs);
       shr_s := shr_r mrs || shr_s mrs |}.
Proof.
  destruct mrs as [m r s]. simpl. intros Hm.
  destruct m as [|[p|p|]|]; try lia; reflexivity.
Qed.

Lemma loc_exact_iff (mrs : shr_record) :
  loc_of_shr_record mrs = loc_Exact <-> shr_r mrs = false /\ shr_s mrs = false.
Proof.
  destruct mrs as [m [] []]; simpl; split; try discriminate; try tauto;
    intros [A B]; discriminate.
Qed.

Lemma shr_1_spec (mrs : shr_record) :
  0 <= shr_m mrs ->
  shr_m (shr_1 mrs) = shr_m mrs / 2 /\
  (loc_of_shr_record (shr_1 mrs) = loc_Exact <->
   loc_of_shr_record mrs = loc_Exact /\ shr_m mrs mod 2 = 0).
Proof.
  intros Hm. rewrite (shr_1_fields mrs Hm). simpl shr_m.
  split; [apply Z.div2_div|].
  rewrite !loc_exact_iff. simpl shr_r. simpl shr_s.
  rewrite Zmod_odd, orb_false_iff.
  destruct (Z.odd (shr_m mrs)); split; try tauto;
    try (intros [A B]; discriminate); intros [A B]; lia.
Qed.

Lemma iter_shr_1_spec (n : positive) :
  forall mrs : shr_record,
    0 <= shr_m mrs ->
    shr_m (SpecFloat.iter_pos shr_1 n mrs) = shr_m mrs / 2 ^ Zpos n /\
    (loc_of_shr_record (SpecFloat.iter_pos shr_1 n mrs) = loc_Exact <->
     loc_of_shr_record mrs = loc_Exact /\ shr_m mrs mod 2 ^ Zpos n = 0).
Proof.
  assert (forall k, 0 < 2 ^ Zpos k) as Hpow by (intros; apply Z.pow_pos_nonneg; lia).
  induction n as [n IH|n IH|]; intros mrs Hm.
  - (* 2n + 1 *)
    change (SpecFloat.iter_pos shr_1 n~1 mrs)
      with (SpecFloat.iter_pos shr_1 n (SpecFloat.iter_pos shr_1 n (shr_1 mrs))).
    destruct (shr_1_spec mrs Hm) as [E1 X1].
    assert (0 <= shr_m (shr_1 mrs)) as H1 by (rewrite E1; apply Z.div_pos; lia).
    destruct (IH _ H1) as [E2 X2].
    assert (0 <= shr_m (SpecFloat.iter_pos shr_1 n (shr_1 mrs))) as H2
        by (rewrite E2; apply Z.div_pos; [lia|apply Hpow]).
    destruct (IH _ H2) as [E3 X3].
    replace (Zpos n~1) with (1 + Zpos n + Zpos n) by lia.
    rewrite !Z.pow_add_r by lia. change (2 ^ 1) with 2.
    pose proof (Hpow n) as Hp.
    split.
    + rewrite E3, E2, E1. rewrite !Z.div_div by lia. f_equal. ring.
    + rewrite X3, X2, X1, E2, E1.
      rewrite (Z.rem_mul_r (shr_m mrs) (2 * 2 ^ Zpos n) (2 ^ Zpos n)) by lia.
      rewrite (Z.rem_mul_r (shr_m mrs) 2 (2 ^ Zpos n)) by lia.
      rewrite <- (Z.div_div (shr_m mrs) 2 (2 ^ Zpos n)) by lia.
      pose proof (Z.mod_pos_bound (shr_m mrs) 2 ltac:(lia)).
      pose proof (Z.mod_pos_bound (shr_m mrs / 2) (2 ^ Zpos n) Hp).
      pose proof (Z.mod_pos_bound (shr_m mrs / 2 / 2 ^ Zpos n) (2 ^ Zpos n) Hp).
      split; [intros [[[A B] C] D]|intros [A B]]; repeat split; try assumption; nia.
  - (* 2n *)
    change (SpecFloat.iter_pos shr_1 n~0 mrs)
      with (SpecFloat.iter_pos shr_1 n (SpecFloat.iter_pos shr_1 n mrs)).
    destruct (IH _ Hm) as [E2 X2].
    assert (0 <= shr_m (SpecFloat.iter_pos shr_1 n mrs)) as H2
        by (rewrite E2; apply Z.div_pos; [lia|apply Hpow]).
    destruct (IH _ H2) as [E3 X3].
    replace (Zpos n~0) with (Zpos n + Zpos n) by lia.
    rewrite !Z.pow_add_r by lia.
    pose proof (Hpow n) as Hp.
    split.
    + rewrite E3, E2. rewrite !Z.div_div by lia. reflexivity.
    + rewrite X3, X2, E2.
      rewrite (Z.rem_mul_r (shr_m mrs) (2 ^ Zpos n) (2 ^ Zpos n)) by lia.
      pose proof (Z.mod_pos_bound (shr_m mrs) (2 ^ Zpos n) Hp).
      pose proof (Z.mod_pos_bound (shr_m mrs / 2 ^ Zpos n) (2 ^ Zpos n) Hp).
      split; [intros [[A B] C]|intros [A B]]; repeat split; try assumption; nia.
  - exact (shr_1_spec mrs Hm).
Qed.

(** [shr_fexp]: the mantissa is cut by [k] bits, where [k] is what the
    format asks for, and the position is exact only if nothing was lost *)
Lemma shr_fexp_spec (m e : Z) (l : location) :
  0 <= m ->
  let k := Z.max 0 (fexp prec emax (Zdigits2 m + e) - e) in
  snd (shr_fexp prec emax m e l) = e + k /\
  shr_m (fst (shr_fexp prec emax m e l)) = m / 2 ^ k /\
  (loc_of_shr_record (fst (shr_fexp prec emax m e l)) = loc_Exact <->
   l = loc_Exact /\ m mod 2 ^ k = 0).
Proof.
  intros Hm k. unfold shr_fexp, shr. subst k.
  destruct (fexp prec emax (Zdigits2 m + e) - e) as [|p|p] eqn:E.
  - simpl. rewrite shr_m_of_loc, loc_of_shr_record_of_loc, Z.div_1_r, Z.mod_1_r.
    repeat split; try lia; tauto.
  - simpl fst. simpl snd. rewrite Z.max_r by lia.
    destruct (iter_shr_1_spec p (shr_record_of_loc m l)) as [E1 X1].
    { now rewrite shr_m_of_loc. }
    rewrite shr_m_of_loc in E1, X1. rewrite loc_of_shr_record_of_loc in X1.
    repeat split; try assumption; apply X1; assumption.
  - simpl. rewrite shr_m_of_loc, loc_of_shr_record_of_loc, Z.div_1_r, Z.mod_1_r.
    repeat split; try lia; tauto.
Qed.

(** *** Rounding *)

Lemma round_nearest_even_cases (m : Z) (l : location) :
  round_nearest_even m l = m \/
  (round_nearest_even m l = m + 1 /\ l <> loc_Exact).
Proof.
  destruct l as [|[]]; simpl; try (left; reflexivity);
    try (right; split; [reflexivity|discriminate]).
  destruct (Z.even m); [left; reflexivity|right; split; [reflexivity|discriminate]].
Qed.

(** the first shift of [binary_round_aux] brings the mantissa to the
    exponent of the format *)
Lemma first_shift (m e : Z) :
  0 <= m -> e <= fexp prec emax (Zdigits2 m + e) ->
  let e1 := fexp prec emax (Zdigits2 m + e) in
  let m1 := m / 2 ^ (e1 - e) in
  0 <= m1 /\
  (m1 = 0 /\ e1 = -1074 \/ 0 < m1 /\ fexp prec emax (Zdigits2 m1 + e1) = e1).
Proof.
  intros Hm Hpre e1 m1.
  assert (0 < 2 ^ (e1 - e)) as Hk by (apply Z.pow_pos_nonneg; subst e1; lia).
  assert (0 <= m1) as Hm1 by (apply Z.div_pos; lia).
  split; [exact Hm1|].
  destruct (Z.eq_dec m 0) as [->|Hne].
  - left. split; [reflexivity|]. subst e1. simpl Zdigits2 in *.
    rewrite fexp_eq in *. lia.
  - assert (0 < m) as Hpos by lia.
    pose proof (Zdigits2_bounds m Hpos) as [L U].
    pose proof (Zdigits2_pos m Hpos) as Hd.
    set (d := Zdigits2 m) in *.
    destruct (Z_le_gt_dec d (e1 - e)) as [Hbig|Hsmall].
    + left. split.
      * apply Z.div_small. split; [lia|].
        apply Z.lt_le_trans with (1 := U). apply Z.pow_le_mono_r; lia.
      * subst e1. rewrite fexp_eq in *. lia.
    + right.
      assert (2 ^ (d - 1 - (e1 - e)) <= m1 < 2 ^ (d - (e1 - e))) as Hb.
      { split.
        - apply Z.div_le_lower_bound; [lia|].
          rewrite Z.mul_comm, <- Z.pow_add_r by lia.
          replace (d - 1 - (e1 - e) + (e1 - e)) with (d - 1) by lia. exact L.
        - apply Z.div_lt_upper_bound; [lia|].
          rewrite <- Z.pow_add_r by lia.
          replace (e1 - e + (d - (e1 - e))) with d by lia. exact U. }
      assert (0 < m1) as Hm1'.
      { assert (0 < 2 ^ (d - 1 - (e1 - e))) by (apply Z.pow_pos_nonneg; lia). lia. }
      split; [exact Hm1'|].
      rewrite (Zdigits2_unique m1 (d - (e1 - e)));
        [|replace (d - (e1 - e) - 1) with (d - 1 - (e1 - e)) by lia; exact Hb|lia].
      replace (d - (e1 - e) + e1) with (d + e) by lia. reflexivity.
Qed.

(** the successor of a mantissa has as many digits, or is a power of 2 *)
Lemma Zdigits2_succ (m : Z) :
  0 < m ->
  Zdigits2 (m + 1) = Zdigits2 m \/
  (m + 1 = 2 ^ Zdigits2 m /\ Zdigits2 (m + 1) = Zdigits2 m + 1).
Proof.
  intros Hm. pose proof (Zdigits2_bounds m Hm) as [L U].
  pose proof (Zdigits2_pos m Hm) as Hd.
  destruct (Z.eq_dec (m + 1) (2 ^ Zdigits2 m)) as [E|NE].
  - right. split; [exact E|].
    apply Zdigits2_unique; [|lia].
    replace (Zdigits2 m + 1 - 1) with (Zdigits2 m) by lia.
    rewrite Z.pow_add_r by lia. change (2 ^ 1) with 2. lia.
  - left. apply Zdigits2_unique; [lia|exact Hd].
Qed.

(** the second shift of [binary_round_aux] makes the rounded mantissa
    canonical again, and keeps its value *)
Lemma second_shift (m2 e1 : Z) :
  0 < m2 ->
  fexp prec emax (Zdigits2 m2 + e1) = e1 \/
  (0 < m2 - 1 /\ fexp prec emax (Zdigits2 (m2 - 1) + e1) = e1) ->
  let k := Z.max 0 (fexp prec emax (Zdigits2 m2 + e1) - e1) in
  0 < m2 / 2 ^ k /\
  fexp prec emax (Zdigits2 (m2 / 2 ^ k) + (e1 + k)) = e1 + k /\
  F2R (m2 / 2 ^ k) (e1 + k) = F2R m2 e1.
Proof.
  intros Hm2 Hc k.
  assert (fexp prec emax (Zdigits2 m2 + e1) = e1 -> 0 < m2 / 2 ^ k /\
          fexp prec emax (Zdigits2 (m2 / 2 ^ k) + (e1 + k)) = e1 + k /\
          F2R (m2 / 2 ^ k) (e1 + k) = F2R m2 e1) as Hcanon.
  { intros E. subst k. rewrite E, Z.sub_diag. change (Z.max 0 0) with 0.
    rewrite Z.pow_0_r, Z.div_1_r, Z.add_0_r. auto. }
  destruct Hc as [E|[Hm1 E]]; [exact (Hcanon E)|].
  subst k. remember (m2 - 1) as m1 eqn:Hm1eq.
  assert (m2 = m1 + 1) as -> by lia. clear Hm1eq.
  set (k := Z.max 0 (fexp prec emax (Zdigits2 (m1 + 1) + e1) - e1)) in *.
  destruct (Zdigits2_succ m1 Hm1) as [Hd|[Hp Hd]].
  - apply Hcanon. now rewrite Hd.
  - pose proof (Zdigits2_pos m1 Hm1) as Hd1.
    destruct (Z.eq_dec (fexp prec emax (Zdigits2 (m1 + 1) + e1)) e1) as [E'|NE];
      [exact (Hcanon E')|].
    assert (fexp prec emax (Zdigits2 (m1 + 1) + e1) = e1 + 1) as E1.
    { rewrite Hd in *. rewrite fexp_eq in *. lia. }
    subst k. rewrite E1. replace (e1 + 1 - e1) with 1 by lia.
    change (Z.max 0 1) with 1. change (2 ^ 1) with 2.
    assert ((m1 + 1) / 2 = 2 ^ (Zdigits2 m1 - 1)) as Hhalf.
    { rewrite Hp. replace (Zdigits2 m1) with (1 + (Zdigits2 m1 - 1)) at 1 by lia.
      rewrite Z.pow_add_r by lia. change (2 ^ 1) with 2.
      rewrite Z.mul_comm, Z.div_mul by lia. reflexivity. }
    rewrite Hhalf.
    assert (0 < 2 ^ (Zdigits2 m1 - 1)) as Hpos by (apply Z.pow_pos_nonneg; lia).
    split; [exact Hpos|]. split.
    + rewrite (Zdigits2_unique (2 ^ (Zdigits2 m1 - 1)) (Zdigits2 m1));
        [|split; [apply Z.le_refl|]|exact Hd1].
      * replace (Zdigits2 m1 + (e1 + 1)) with (Zdigits2 m1 + 1 + e1) by lia.
        rewrite <- Hd. exact E1.
      * apply Z.pow_lt_mono_r; lia.
    + rewrite <- (F2R_shift _ e1 1) by lia. f_equal.
      rewrite Hp. change (2 ^ 1) with 2.
      replace (Zdigits2 m1) with ((Zdigits2 m1 - 1) + 1) at 2 by lia.
      rewrite Z.pow_add_r by lia. reflexivity.
Qed.

(** What [binary_round_aux] returns: the mantissa cut to the exponent of
    the format, or its successor when something was lost, made canonical;
    zero when nothing is left, an infinity beyond the largest exponent. *)
Lemma binary_round_aux_spec (s : bool) (m e : Z) (l : location) :
  0 <= m -> e <= fexp prec emax (Zdigits2 m + e) ->
  let e1 := fexp prec emax (Zdigits2 m + e) in
  let m1 := m / 2 ^ (e1 - e) in
  exists m2 : Z,
    (m2 = m1 \/ (m2 = m1 + 1 /\ ~ (l = loc_Exact /\ m mod 2 ^ (e1 - e) = 0))) /\
    ((m2 = 0 /\ binary_round_aux prec emax s m e l = S754_zero s) \/
     (exists (m3 : positive) (e3 : Z),
         0 < m2 /\
         canonical_mantissa prec emax m3 e3 = true /\
         F2R (Zpos m3) e3 = F2R m2 e1 /\
         binary_round_aux prec emax s m e l =
           if e3 <=? emax - prec then S754_finite s m3 e3 else S754_infinity s)).
Proof.
  intros Hm Hpre e1 m1.
  destruct (first_shift m e Hm Hpre) as [Hm1 Hcase]. fold e1 in Hcase. fold m1 in Hcase.
  destruct (shr_fexp_spec m e l Hm) as (Es & Em & El).
  rewrite Z.max_r in Es, Em, El by lia. fold e1 in Es, Em, El.
  replace (e + (e1 - e)) with e1 in Es by lia. fold m1 in Em.
  unfold binary_round_aux.
  destruct (shr_fexp prec emax m e l) as [r1 e1'] eqn:E1.
  simpl fst in *. simpl snd in *. subst e1'.
  set (m2 := round_nearest_even (shr_m r1) (loc_of_shr_record r1)).
  exists m2.
  assert (m2 = m1 \/ (m2 = m1 + 1 /\ ~ (l = loc_Exact /\ m mod 2 ^ (e1 - e) = 0))) as Hm2.
  { subst m2. rewrite Em.
    destruct (round_nearest_even_cases m1 (loc_of_shr_record r1)) as [->|[-> Hn]];
      [left; reflexivity|right; split; [reflexivity|]].
    intros H. apply Hn. apply El. exact H. }
  split; [exact Hm2|].
  assert (0 <= m2) as Hm2nn by (destruct Hm2 as [->|[-> _]]; lia).
  destruct (shr_fexp_spec m2 e1 loc_Exact Hm2nn) as (Es2 & Em2 & _).
  destruct (shr_fexp prec emax m2 e1 loc_Exact) as [r3 e3] eqn:E3.
  simpl fst in *. simpl snd in *.
  destruct (Z.eq_dec m2 0) as [Hz|Hnz].
  - left. split; [exact Hz|]. rewrite Em2, Hz. rewrite Z.div_0_l; [reflexivity|].
    apply Z.pow_nonzero; lia.
  - right.
    assert (0 < m2) as Hpos by lia.
    destruct (second_shift m2 e1 Hpos) as (H3pos & H3can & H3val).
    { destruct Hcase as [[Hz He]|[Hp Hc]].
      - left. destruct Hm2 as [E|[E _]]; [lia|].
        rewrite E, Hz. simpl. fold e1 in He. rewrite He. reflexivity.
      - destruct Hm2 as [E|[E _]]; [left; now rewrite E|right].
        replace (m2 - 1) with m1 by lia. auto. }
    rewrite <- Em2 in H3pos, H3can, H3val. rewrite <- Es2 in H3can, H3val.
    destruct (shr_m r3) as [|m3|m3] eqn:Er3; try lia.
    exists m3, e3. repeat split; try assumption.
    unfold canonical_mantissa. apply Z.eqb_eq. exact H3can.
Qed.

Lemma bounded_canonical (m : positive) (e : Z) :
  SpecFloat.bounded prec emax m e = true ->
  fexp prec emax (Zdigits2 (Zpos m) + e) = e /\ e <= emax - prec.
Proof.
  unfold SpecFloat.bounded, canonical_mantissa. intros H. apply andb_prop in H.
  destruct H as [H1 H2]. apply Z.eqb_eq in H1. apply Z.leb_le in H2. auto.
Qed.

(** [binary_round_aux] returns a binary64 value *)
Lemma binary_round_aux_valid (s : bool) (m e : Z) (l : location) :
  0 <= m -> e <= fexp prec emax (Zdigits2 m + e) ->
  valid_binary prec emax (binary_round_aux prec emax s m e l) = true.
Proof.
  intros Hm Hpre.
  destruct (binary_round_aux_spec s m e l Hm Hpre)
    as (m2 & _ & [[_ ->]|(m3 & e3 & _ & Hc & _ & ->)]); [reflexivity|].
  destruct (e3 <=? emax - prec) eqn:E; [|reflexivity].
  simpl. unfold SpecFloat.bounded. now rewrite Hc, E.
Qed.

(** [binary_round_aux] does not round above a binary64 value that the
    exact value does not exceed *)
Lemma binary_round_aux_le (s : bool) (m e : Z) (l : location)
      (mb : positive) (eb : Z) :
  0 <= m -> e <= fexp prec emax (Zdigits2 m + e) ->
  SpecFloat.bounded prec emax mb eb = true ->
  (F2R m e <= F2R (Zpos mb) eb)%R ->
  (l <> loc_Exact -> (F2R m e < F2R (Zpos mb) eb)%R) ->
  binary_round_aux prec emax s m e l = S754_zero s \/
  exists (m3 : positive) (e3 : Z),
    binary_round_aux prec emax s m e l = S754_finite s m3 e3 /\
    SpecFloat.bounded prec emax m3 e3 = true /\
    (F2R (Zpos m3) e3 <= F2R (Zpos mb) eb)%R.
Proof.
  intros Hm Hpre Hb Hle Hlt.
  destruct (bounded_canonical mb eb Hb) as [Hbc Hbe].
  destruct (binary_round_aux_spec s m e l Hm Hpre)
    as (m2 & Hm2 & [[_ E]|(m3 & e3 & Hpos & Hc & Hv & E)]); [left; exact E|right].
  destruct (first_shift m e Hm Hpre) as [Hm1 Hcase].
  set (e1 := fexp prec emax (Zdigits2 m + e)) in *.
  set (m1 := m / 2 ^ (e1 - e)) in *.
  assert (0 < 2 ^ (e1 - e)) as Hk by (apply Z.pow_pos_nonneg; lia).
  assert (m1 * 2 ^ (e1 - e) <= m) as Hfloor.
  { pose proof (Z.mul_div_le m (2 ^ (e1 - e)) Hk). fold m1 in H. lia. }
  assert (F2R m1 e1 <= F2R m e)%R as Hdown.
  { replace e1 with (e + (e1 - e)) at 1 by lia.
    rewrite <- F2R_shift by lia. now apply F2R_le. }
  assert (F2R m2 e1 <= F2R (Zpos mb) eb)%R as Hup.
  { destruct Hm2 as [->|[-> Hinexact]]; [lra|].
    assert (F2R m1 e1 < F2R (Zpos mb) eb)%R as Hstrict.
    { destruct l as [|c].
      - destruct (Z.eq_dec (m mod 2 ^ (e1 - e)) 0) as [Hz|Hnz];
          [exfalso; apply Hinexact; auto|].
        assert (m1 * 2 ^ (e1 - e) < m) as Hlow.
        { pose proof (Z.div_mod m (2 ^ (e1 - e)) ltac:(lia)).
          pose proof (Z.mod_pos_bound m (2 ^ (e1 - e)) Hk). fold m1 in H. lia. }
        assert (F2R m1 e1 < F2R m e)%R; [|lra].
        replace e1 with (e + (e1 - e)) at 1 by lia.
        rewrite <- F2R_shift by lia.
        unfold F2R. apply IZR_lt in Hlow. pose proof (pw_pos e). nra.
      - assert (F2R m e < F2R (Zpos mb) eb)%R by (apply Hlt; discriminate). lra. }
    assert (e1 <= eb) as Hgrid.
    { destruct (Z.eq_dec m 0) as [Hz|Hnz].
      - destruct Hcase as [[_ He]|[Hp _]].
        + rewrite He. rewrite <- Hbc, fexp_eq. lia.
        + subst m1. rewrite Hz, Z.div_0_l in Hp; lia.
      - rewrite <- Hbc. apply fexp_mono.
        apply magnitude_le; [lia|reflexivity|exact Hle]. }
    replace eb with (e1 + (eb - e1)) in Hstrict |- * by lia.
    rewrite <- F2R_shift in Hstrict |- * by lia.
    apply F2R_lt_inv in Hstrict. apply F2R_le. lia. }
  exists m3, e3.
  assert (e3 <= eb) as He3.
  { unfold canonical_mantissa in Hc. apply Z.eqb_eq in Hc.
    change (Zpos (digits2_pos m3)) with (Zdigits2 (Zpos m3)) in Hc.
    rewrite <- Hc, <- Hbc. apply fexp_mono.
    apply magnitude_le; [reflexivity|reflexivity|]. rewrite Hv. exact Hup. }
  assert ((e3 <=? emax - prec) = true) as Hin by (apply Z.leb_le; lia).
  rewrite Hin in E. split; [exact E|]. split.
  - unfold SpecFloat.bounded. now rewrite Hc, Hin.
  - rewrite Hv. exact Hup.
Qed.

(** *** Aligning to the left *)

Lemma iter_xO (d m : positive) : Zpos (Pos.iter xO m d) = Zpos m * 2 ^ Zpos d.
Proof.
  induction d as [|d IH] using Pos.peano_ind.
  - simpl. lia.
  - rewrite Pos.iter_succ, Pos2Z.inj_xO, IH, Pos2Z.inj_succ, Z.pow_succ_r by lia.
    ring.
Qed.

Lemma shl_align_spec (mx : positive) (ex ex' : Z) :
  snd (shl_align mx ex ex') = Z.min ex ex' /\
  Zpos (fst (shl_align mx ex ex')) = Zpos mx * 2 ^ (ex - Z.min ex ex').
Proof.
  unfold shl_align. destruct (ex' - ex) as [|d|d] eqn:E; simpl.
  - rewrite Z.min_l by lia. rewrite Z.sub_diag. simpl. lia.
  - rewrite Z.min_l by lia. rewrite Z.sub_diag. simpl. lia.
  - rewrite Z.min_r by lia. rewrite iter_xO.
    replace (ex - ex') with (Zpos d) by lia. auto.
Qed.

Lemma Zdigits2_shift (m k : Z) :
  0 < m -> 0 <= k -> Zdigits2 (m * 2 ^ k) = Zdigits2 m + k.
Proof.
  intros Hm Hk. pose proof (Zdigits2_bounds m Hm) as [L U].
  pose proof (Zdigits2_pos m Hm) as Hd.
  assert (0 < 2 ^ k) by (apply Z.pow_pos_nonneg; lia).
  apply Zdigits2_unique; [|lia].
  replace (Zdigits2 m + k - 1) with ((Zdigits2 m - 1) + k) by lia.
  rewrite !Z.pow_add_r by lia. nia.
Qed.

(** what [binary_round] hands to [binary_round_aux] *)
Lemma shl_align_fexp (mx : positive) (ex : Z) :
  let a := shl_align mx ex (fexp prec emax (Zdigits2 (Zpos mx) + ex)) in
  snd a <= fexp prec emax (Zdigits2 (Zpos (fst a)) + snd a) /\
  F2R (Zpos (fst a)) (snd a) = F2R (Zpos mx) ex.
Proof.
  intros a. destruct (shl_align_spec mx ex (fexp prec emax (Zdigits2 (Zpos mx) + ex)))
    as [Es Em]. fold a in Es, Em. rewrite Em, Es.
  set (f := fexp prec emax (Zdigits2 (Zpos mx) + ex)) in *.
  assert (0 <= ex - Z.min ex f) by lia.
  rewrite Zdigits2_shift by lia.
  replace (Zdigits2 (Zpos mx) + (ex - Z.min ex f) + Z.min ex f)
    with (Zdigits2 (Zpos mx) + ex) by lia.
  fold f. split; [lia|].
  rewrite F2R_shift by lia. f_equal. lia.
Qed.

Lemma binary_round_valid (s : bool) (mx : positive) (ex : Z) :
  valid_binary prec emax (binary_round prec emax s mx ex) = true.
Proof.
  unfold binary_round.
  destruct (shl_align_fexp mx ex) as [Hpre _].
  destruct (shl_align mx ex _) as [mz ez]. simpl in Hpre.
  apply binary_round_aux_valid; [lia|exact Hpre].
Qed.

Lemma binary_normalize_valid (m e : Z) (szero : bool) :
  valid_binary prec emax (binary_normalize prec emax m e szero) = true.
Proof.
  destruct m; simpl; [reflexivity|apply binary_round_valid..].
Qed.

Lemma binary_normalize_le (m e : Z) (mb : positive) (eb : Z) :
  0 <= m ->
  SpecFloat.bounded prec emax mb eb = true ->
  (F2R m e <= F2R (Zpos mb) eb)%R ->
  binary_normalize prec emax m e false = S754_zero false \/
  exists (m3 : positive) (e3 : Z),
    binary_normalize prec emax m e false = S754_finite false m3 e3 /\
    SpecFloat.bounded prec emax m3 e3 = true /\
    (F2R (Zpos m3) e3 <= F2R (Zpos mb) eb)%R.
Proof.
  intros Hm Hb Hle. destruct m as [|mx|mx]; [left; reflexivity| |lia].
  simpl. unfold binary_round.
  destruct (shl_align_fexp mx e) as [Hpre Hv].
  destruct (shl_align mx e _) as [mz ez]. simpl in Hpre, Hv.
  apply binary_round_aux_le; try assumption; try lia.
  - rewrite Hv. exact Hle.
  - intros H. now contradiction H.
Qed.

(** *** Order *)

(** [x <= y] on positive binary64 values is the order of their values *)
Lemma SFleb_F2R (m1 m2 : positive) (e1 e2 : Z) :
  SpecFloat.bounded prec emax m1 e1 = true -> SpecFloat.bounded prec emax m2 e2 = true ->
  SFleb (S754_finite false m1 e1) (S754_finite false m2 e2) = true ->
  (F2R (Zpos m1) e1 <= F2R (Zpos m2) e2)%R.
Proof.
  intros H1 H2. destruct (bounded_canonical _ _ H1) as [C1 _].
  destruct (bounded_canonical _ _ H2) as [C2 _].
  unfold SFleb, SFcompare. destruct (Z.compare_spec e1 e2) as [E|L|G].
  - subst e2. rewrite Pos.compare_cont_spec. simpl.
    destruct (Pos.compare_spec m1 m2) as [E|L|G]; try discriminate; intros _;
      apply F2R_le; lia.
  - intros _.
    pose proof (F2R_bounds (Zpos m1) e1 ltac:(lia)) as [_ U1].
    pose proof (F2R_bounds (Zpos m2) e2 ltac:(lia)) as [L2 _].
    rewrite fexp_eq in C1, C2.
    assert (Zdigits2 (Zpos m1) + e1 <= Zdigits2 (Zpos m2) + e2 - 1) as Hmag by lia.
    apply pw_le in Hmag. lra.
  - discriminate.
Qed.

(** *** Division *)

Lemma Zdigits2_lower (m j : Z) : 0 <= j -> 2 ^ j <= m -> j + 1 <= Zdigits2 m.
Proof.
  intros Hj H.
  assert (0 < m) as Hm by (pose proof (Z.pow_pos_nonneg 2 j); lia).
  pose proof (Zdigits2_bounds m Hm) as [_ U].
  pose proof (Zdigits2_pos m Hm) as Hd.
  destruct (Z_le_gt_dec (j + 1) (Zdigits2 m)) as [L|G]; [exact L|].
  assert (2 ^ Zdigits2 m <= 2 ^ j) by (apply Z.pow_le_mono_r; lia). lia.
Qed.

Lemma new_location_exact (nb k : Z) : new_location nb k <> loc_Exact -> k <> 0.
Proof.
  unfold new_location, new_location_even, new_location_odd.
  intros H ->. destruct (Z.even nb); simpl in H; now apply H.
Qed.

(** the quotient [SFdiv_core_binary] hands to [binary_round_aux]: cut below
    the exponent of the format, and not above the exact quotient *)
Lemma SFdiv_core_binary_spec (m1 e1 m2 e2 : Z) :
  0 < m1 -> 0 < m2 ->
  let '(q, e', l) := SFdiv_core_binary prec emax m1 e1 m2 e2 in
  0 <= q /\
  e' <= fexp prec emax (Zdigits2 q + e') /\
  (F2R q e' * F2R m2 e2 <= F2R m1 e1)%R /\
  (l <> loc_Exact -> (F2R q e' * F2R m2 e2 < F2R m1 e1)%R).
Proof.
  intros H1 H2. unfold SFdiv_core_binary.
  set (D := Zdigits2 m1 + e1 - (Zdigits2 m2 + e2)).
  set (e' := Z.min (fexp prec emax D) (e1 - e2)).
  set (s := e1 - e2 - e').
  assert (0 <= s) as Hs by (subst s e'; lia).
  assert (match s with Z.pos _ => Z.shiftl m1 s | 0 => m1 | Z.neg _ => 0 end
          = m1 * 2 ^ s) as Hm'.
  { destruct s as [|p|p] eqn:Es; [simpl; lia| |lia].
    rewrite Z.shiftl_mul_pow2 by lia. reflexivity. }
  rewrite Hm'. clear Hm'.
  assert (0 < 2 ^ s) as Hps by (apply Z.pow_pos_nonneg; lia).
  pose proof (Z.div_eucl_eq (m1 * 2 ^ s) m2 ltac:(lia)) as Heq.
  pose proof (Z.mod_pos_bound (m1 * 2 ^ s) m2 H2) as Hr.
  unfold Z.modulo in Hr.
  destruct (Z.div_eucl (m1 * 2 ^ s) m2) as [q r] eqn:Ediv.
  assert (0 <= q) as Hq by nia.
  assert (F2R (m1 * 2 ^ s) (e' + e2) = F2R m1 e1) as Hval.
  { rewrite F2R_shift by lia. f_equal. subst s. lia. }
  assert (F2R q e' * F2R m2 e2 = F2R (m2 * q) (e' + e2))%R as Hprod.
  { unfold F2R. rewrite mult_IZR, pw_add. ring. }
  split; [exact Hq|]. split; [|split].
  - destruct (Z_le_gt_dec e' (-1074)) as [Hlow|Hhigh].
    + rewrite fexp_eq. lia.
    + assert (e' <= D - 53) as HD by (subst e'; rewrite fexp_eq in *; lia).
      pose proof (Zdigits2_bounds m1 H1) as [L1 _].
      pose proof (Zdigits2_bounds m2 H2) as [_ U2].
      pose proof (Zdigits2_pos m1 H1) as Hd1.
      pose proof (Zdigits2_pos m2 H2) as Hd2.
      set (j := Zdigits2 m1 - 1 + s - Zdigits2 m2).
      assert (52 <= j) as Hj by (subst j s D; lia).
      assert (2 ^ j <= q) as Hqj.
      { assert (2 ^ j * m2 <= m1 * 2 ^ s) as Hmul.
        { apply Z.le_trans with (2 ^ j * 2 ^ Zdigits2 m2).
          - apply Z.mul_le_mono_nonneg_l; [apply Z.pow_nonneg|]; lia.
          - rewrite <- Z.pow_add_r by lia.
            replace (j + Zdigits2 m2) with ((Zdigits2 m1 - 1) + s) by (subst j; lia).
            rewrite Z.pow_add_r by lia.
            apply Z.mul_le_mono_nonneg_r; lia. }
        assert (0 < 2 ^ j) by (apply Z.pow_pos_nonneg; lia).
        nia. }
      pose proof (Zdigits2_lower q j ltac:(lia) Hqj) as Hdq.
      apply Z.le_trans with (fexp prec emax D); [subst e'; lia|].
      apply fexp_mono. subst j s D. lia.
  - rewrite Hprod, <- Hval. apply F2R_le. lia.
  - intros Hl. apply new_location_exact in Hl.
    rewrite Hprod, <- Hval. unfold F2R.
    assert (m2 * q < m1 * 2 ^ s) as Hlt by lia.
    apply IZR_lt in Hlt. pose proof (pw_pos (e' + e2)). nra.
Qed.

(** *** Every number the monitor makes is a binary64 value *)

Lemma round_ratio_valid (negative : bool) (p q : Z) :
  0 <= p -> 0 < q -> valid (round_ratio negative p q).
Proof.
  intros Hp Hq. unfold round_ratio, valid.
  destruct p as [|p|p]; [reflexivity| |lia].
  pose proof (SFdiv_core_binary_spec (Zpos p) 0 q 0 ltac:(lia) Hq) as H.
  destruct (SFdiv_core_binary prec emax (Zpos p) 0 q 0) as [[m e] l].
  destruct H as (Hm & Hpre & _). now apply binary_round_aux_valid.
Qed.

Lemma round_decimal_valid (negative : bool) (m e : Z) :
  0 <= m -> valid (round_decimal negative m e).
Proof.
  intros Hm. unfold round_decimal. destruct (0 <=? e) eqn:E.
  - apply Z.leb_le in E. apply round_ratio_valid; [|lia].
    apply Z.mul_nonneg_nonneg; [exact Hm|]. apply Z.pow_nonneg. lia.
  - apply Z.leb_gt in E. apply round_ratio_valid; [exact Hm|].
    apply Z.pow_pos_nonneg; lia.
Qed.

Lemma of_Z_valid (z : Z) : valid (of_Z z).
Proof. unfold of_Z. apply round_ratio_valid; lia. Qed.

Lemma digit_value_nonneg (c : ascii) (d : Z) : digit_value c = Some d -> 0 <= d.
Proof.
  unfold digit_value.
  repeat match goal with
         | |- context [if ?b then _ else _] => destruct b eqn:?
         end; intros [= <-]; try discriminate;
    repeat match goal with
           | H : (_ && _) = true |- _ => apply andb_prop in H; destruct H
           | H : (_ <=? _) = true |- _ => apply Z.leb_le in H
           end; lia.
Qed.

Lemma digits_value_nonneg (radix : Z) (s : string) :
  0 <= radix -> forall acc, 0 <= acc -> 0 <= digits_value radix s acc.
Proof.
  intros Hr. induction s as [|c s IH]; intros acc Hacc; simpl; [exact Hacc|].
  apply IH. destruct (digit_value c) as [d|] eqn:E.
  - apply digit_value_nonneg in E. nia.
  - nia.
Qed.

Lemma scan_decimal_valid (s : string) (x : number) (rest : string) :
  scan_decimal s = Some (x, rest) -> valid x.
Proof.
  unfold scan_decimal. destruct (scan_sign s) as [negative r].
  destruct (scan_unsigned_decimal r) as [[[[m e]|] rest']|] eqn:E;
    intros [= <- _]; [|reflexivity].
  apply round_decimal_valid.
  unfold scan_unsigned_decimal in E.
  destruct (startsWith "Infinity" r); [discriminate|].
  destruct (span is_digit r) as [ip r1].
  destruct (match r1 with
            | String "." r0 => span is_digit r0
            | _ => (""%string, r1)
            end) as [fp r2].
  destruct (scan_exponent r2) as [ex r3].
  assert (0 <= digits_value 10 (ip ++ fp) 0) as H
      by (apply digits_value_nonneg; lia).
  destruct ip, fp; try discriminate; injection E as <- _ _; exact H.
Qed.

Lemma scan_non_decimal_valid (s : string) (x : number) :
  scan_non_decimal s = Some x -> valid x.
Proof.
  unfold scan_non_decimal.
  destruct s as [|c0 [|c ds]]; try discriminate.
  destruct (negb (Ascii.eqb c0 "0")); [discriminate|].
  assert (forall r : Z,
             0 <= r ->
             match ds with
             | ""%string => None
             | String _ _ =>
                 let (_, s0) := span (is_radix_digit r) ds in
                 match s0 with
                 | ""%string => Some (round_ratio false (digits_value r ds 0) 1)
                 | String _ _ => None
                 end
             end = Some x -> valid x) as H.
  { intros r Hr.
    assert (0 <= digits_value r ds 0) as Hv by (apply digits_value_nonneg; lia).
    destruct ds; [discriminate|].
    destruct (span (is_radix_digit r) _) as [pre [|]]; [|discriminate].
    intros [= <-]. apply round_ratio_valid; [exact Hv|lia]. }
  destruct (Ascii.eqb c "x" || Ascii.eqb c "X"); [apply H; lia|].
  destruct (Ascii.eqb c "o" || Ascii.eqb c "O"); [apply H; lia|].
  destruct (Ascii.eqb c "b" || Ascii.eqb c "B"); [apply H; lia|discriminate].
Qed.

Lemma StringToNumber_valid (s : string) : valid (StringToNumber s).
Proof.
  unfold StringToNumber. destruct (trim s) as [|c t]; [reflexivity|].
  destruct (scan_non_decimal (String c t)) as [x|] eqn:E1;
    [exact (scan_non_decimal_valid _ _ E1)|].
  destruct (scan_decimal (String c t)) as [[x [|]]|] eqn:E2; try reflexivity.
  exact (scan_decimal_valid _ _ _ E2).
Qed.

Lemma add_valid (x y : number) : valid x -> valid y -> valid (add x y).
Proof.
  unfold valid, add. intros Hx Hy.
  destruct x as [sx|sx| |sx mx ex], y as [sy|sy| |sy my ey];
    try reflexivity; try assumption;
    try (destruct sx, sy; reflexivity).
  apply binary_normalize_valid.
Qed.

Lemma sub_valid (x y : number) : valid x -> valid y -> valid (sub x y).
Proof.
  unfold valid, sub. intros Hx Hy.
  destruct x as [sx|sx| |sx mx ex], y as [sy|sy| |sy my ey];
    try reflexivity; try assumption;
    try (destruct sx, sy; reflexivity).
  apply binary_normalize_valid.
Qed.

Lemma cpu_parts_valid (line : string) : Forall valid (cpu_parts line).
Proof.
  unfold cpu_parts. apply Forall_map, Forall_forall.
  intros t _. apply StringToNumber_valid.
Qed.

Lemma cpu_total_valid (parts : list number) :
  Forall valid parts -> valid (cpu_total parts).
Proof.
  unfold cpu_total. generalize (of_Z_valid 0). generalize (of_Z 0).
  induction parts as [|x parts IH]; intros acc Hacc H; simpl; [exact Hacc|].
  inversion H; subst. apply IH; [apply add_valid|]; assumption.
Qed.

Lemma ToNumber_valid (v : value) : valid_value v -> valid (ToNumber v).
Proof. destruct v; simpl; intros H; [reflexivity|reflexivity|exact H]. Qed.

Lemma element_valid (parts : list number) (i : nat) :
  Forall valid parts -> valid_value (element parts i).
Proof.
  intros H. unfold element. destruct (nth_error parts i) as [x|] eqn:E; [|exact I].
  simpl. rewrite Forall_forall in H. apply H. eapply nth_error_In; eassumption.
Qed.

(** *** The usage is a percentage *)

Lemma F2R_pos (m : positive) (e : Z) : (0 < F2R (Zpos m) e)%R.
Proof.
  unfold F2R. pose proof (pw_pos e).
  assert (0 < IZR (Zpos m))%R by (apply IZR_lt; lia). nra.
Qed.

Lemma F2R_sub (a b e : Z) : F2R (a - b) e = (F2R a e - F2R b e)%R.
Proof. unfold F2R. rewrite minus_IZR. ring. Qed.

Lemma F2R_one : F2R 4503599627370496 (-52) = 1%R.
Proof.
  change 4503599627370496 with (1 * 2 ^ 52). rewrite F2R_shift by lia.
  unfold F2R. simpl. lra.
Qed.

Lemma F2R_hundred : F2R 7036874417766400 (-46) = 100%R.
Proof.
  change 7036874417766400 with (100 * 2 ^ 46). rewrite F2R_shift by lia.
  unfold F2R. simpl. lra.
Qed.

(** [totalDiff - idleDiff] is not above [totalDiff] *)
Lemma sub_le (mt : positive) (et : Z) (i : number) :
  SpecFloat.bounded prec emax mt et = true ->
  (exists s, i = S754_zero s) \/
  (exists mi ei, i = S754_finite false mi ei /\
                 (F2R (Zpos mi) ei <= F2R (Zpos mt) et)%R) ->
  sub (S754_finite false mt et) i = S754_zero false \/
  exists (md : positive) (ed : Z),
    sub (S754_finite false mt et) i = S754_finite false md ed /\
    (F2R (Zpos md) ed <= F2R (Zpos mt) et)%R.
Proof.
  intros Hb [[s ->]|(mi & ei & -> & Hle)].
  - right. exists mt, et. split; [reflexivity|lra].
  - unfold sub, SFsub, cond_Zopp.
    destruct (shl_align_spec mt et (Z.min et ei)) as [_ Et].
    destruct (shl_align_spec mi ei (Z.min et ei)) as [_ Ei].
    rewrite Et, Ei.
    replace (Z.min et (Z.min et ei)) with (Z.min et ei) by lia.
    replace (Z.min ei (Z.min et ei)) with (Z.min et ei) by lia.
    set (ez := Z.min et ei).
    set (M := Zpos mt * 2 ^ (et - ez) - Zpos mi * 2 ^ (ei - ez)).
    assert (F2R M ez = F2R (Zpos mt) et - F2R (Zpos mi) ei)%R as HM.
    { unfold M. rewrite F2R_sub, !F2R_shift by (subst ez; lia).
      replace (ez + (et - ez)) with et by lia.
      replace (ez + (ei - ez)) with ei by lia. reflexivity. }
    assert (0 <= M) as HM0.
    { apply (F2R_le_inv 0 M ez). rewrite HM. unfold F2R at 1. lra. }
    pose proof (F2R_pos mi ei).
    destruct (binary_normalize_le M ez mt et HM0 Hb) as [E|(md & ed & E & _ & Hd)];
      [lra|left; exact E|right].
    exists md, ed. split; assumption.
Qed.

(** the quotient by [totalDiff] is not above 1 *)
Lemma div_le (md mt : positive) (ed et : Z) :
  (F2R (Zpos md) ed <= F2R (Zpos mt) et)%R ->
  div (S754_finite false md ed) (S754_finite false mt et) = S754_zero false \/
  exists (mr : positive) (er : Z),
    div (S754_finite false md ed) (S754_finite false mt et) =
      S754_finite false mr er /\
    SpecFloat.bounded prec emax mr er = true /\
    (F2R (Zpos mr) er <= 1)%R.
Proof.
  intros Hle. unfold div, SFdiv.
  pose proof (SFdiv_core_binary_spec (Zpos md) ed (Zpos mt) et
                ltac:(lia) ltac:(lia)) as H.
  destruct (SFdiv_core_binary prec emax (Zpos md) ed (Zpos mt) et) as [[q e'] l].
  destruct H as (Hq & Hpre & Hv & Hs).
  pose proof (F2R_pos mt et) as Ht.
  rewrite <- F2R_one.
  apply binary_round_aux_le; try assumption; try reflexivity;
    rewrite F2R_one.
  - nra.
  - intros Hl. specialize (Hs Hl). nra.
Qed.

(** the product by 100 is not above 100 *)
Lemma mul_le (mr : positive) (er : Z) :
  (F2R (Zpos mr) er <= 1)%R ->
  mul (S754_finite false mr er) (of_Z 100) = S754_zero false \/
  exists (mu : positive) (eu : Z),
    mul (S754_finite false mr er) (of_Z 100) = S754_finite false mu eu /\
    (F2R (Zpos mu) eu <= 100)%R.
Proof.
  intros Hle.
  change (of_Z 100) with (S754_finite false 7036874417766400 (-46)).
  unfold mul, SFmul.
  assert (F2R (Zpos (mr * 7036874417766400)) (er + -46) =
          F2R (Zpos mr) er * 100)%R as Hv.
  { rewrite <- F2R_hundred. unfold F2R.
    rewrite Pos2Z.inj_mul, mult_IZR, pw_add. ring. }
  rewrite <- F2R_hundred.
  destruct (binary_round_aux_le false (Zpos (mr * 7036874417766400)) (er + -46)
              loc_Exact 7036874417766400 (-46)) as [E|(mu & eu & E & _ & Hu)];
    try reflexivity; try lia.
  - rewrite fexp_eq.
    pose proof (Zdigits2_bounds (Zpos mr) ltac:(lia)) as [L _].
    pose proof (Zdigits2_pos (Zpos mr) ltac:(lia)) as Hd.
    assert (Zdigits2 (Zpos mr) - 1 + 52 + 1 <= Zdigits2 (Zpos (mr * 7036874417766400))).
    { apply Zdigits2_lower; [lia|].
      rewrite Z.pow_add_r by lia. rewrite Pos2Z.inj_mul.
      apply Z.mul_le_mono_nonneg; try lia; apply Z.pow_nonneg; lia. }
    lia.
  - rewrite Hv, F2R_hundred. lra.
  - intros H. now contradiction H.
  - left. exact E.
  - right. exists mu, eu. split; assumption.
Qed.

(** two decimals *)

Lemma numerator_denominator (m : positive) (e : Z) :
  0 < denominator e /\
  (F2R (Zpos m) e * IZR (denominator e) = IZR (numerator m e))%R.
Proof.
  unfold numerator, denominator, F2R. destruct (0 <=? e) eqn:E.
  - apply Z.leb_le in E. split; [lia|].
    rewrite mult_IZR, <- pw_IZR by lia. ring.
  - apply Z.leb_gt in E. split; [apply Z.pow_pos_nonneg; lia|].
    rewrite <- pw_IZR by lia. rewrite Rmult_assoc, <- pw_add.
    replace (e + - e) with 0 by lia. simpl. ring.
Qed.

Lemma hundredths_in_range :
  forallb (fun n => in_range (parseFloat (point_notation (Z.of_nat n) 2)))
          (seq 0 (Z.to_nat 10001)) = true.
Proof. vm_compute. reflexivity. Qed.

Lemma point_notation_in_range (n : Z) :
  0 <= n <= 10000 -> in_range (parseFloat (point_notation n 2)) = true.
Proof.
  intros Hn. pose proof hundredths_in_range as H.
  rewrite forallb_forall in H. specialize (H (Z.to_nat n)).
  rewrite Z2Nat.id in H by lia. apply H. apply in_seq. lia.
Qed.

Lemma round2_in_range (u : number) :
  u = S754_zero false \/
  (exists mu eu, u = S754_finite false mu eu /\ (F2R (Zpos mu) eu <= 100)%R) ->
  in_range (round2 u) = true.
Proof.
  intros [->|(mu & eu & -> & Hle)]; [vm_compute; reflexivity|].
  unfold round2, toFixed.
  destruct (numerator_denominator mu eu) as [Hq Hv].
  set (p := numerator mu eu) in *. set (q := denominator eu) in *.
  assert (0 < p) as Hp.
  { apply lt_IZR. rewrite <- Hv. pose proof (F2R_pos mu eu).
    apply IZR_lt in Hq. nra. }
  assert (p <= 100 * q) as Hpq.
  { apply le_IZR. rewrite mult_IZR, <- Hv. apply IZR_lt in Hq. nra. }
  assert ((10 ^ 21 * q <=? p) = false) as ->.
  { apply Z.leb_gt.
    assert (100 * q < 10 ^ 21 * q); [|lia].
    apply Z.mul_lt_mono_pos_r; [exact Hq|reflexivity]. }
  change ((if false then "-" else "") ++ fixed_notation p q 2)%string
    with (fixed_notation p q 2).
  unfold fixed_notation. apply point_notation_in_range.
  unfold nearest_integer. change (10 ^ Z.of_nat 2) with 100. split.
  - apply Z.div_pos; lia.
  - assert ((2 * p * 100 + q) / (2 * q) < 10001); [|lia].
    apply Z.div_lt_upper_bound; lia.
Qed.

(** ** C5 *)

(** the usage of a pair of deltas that did not go backwards is a
    percentage *)
Lemma usage_in_range (i t : number) :
  valid i -> valid t ->
  le (of_Z 0) i = true -> le i t = true ->
  is_finite t = true -> strict_eq t (of_Z 0) = false ->
  in_range (round2 (cpu_usage i t)) = true.
Proof.
  intros Vi Vt H0i Hit Hfin Hnz.
  destruct t as [st|st| |st mt et]; try discriminate.
  assert (st = false /\
          ((exists s, i = S754_zero s) \/
           (exists mi ei, i = S754_finite false mi ei /\
                          (F2R (Zpos mi) ei <= F2R (Zpos mt) et)%R))) as [-> Hi].
  { destruct i as [si|si| |si mi ei]; try discriminate.
    - destruct st; [discriminate|]. split; [reflexivity|left; eauto].
    - destruct si; discriminate.
    - destruct si; [discriminate|]. destruct st; [discriminate|].
      split; [reflexivity|right]. exists mi, ei. split; [reflexivity|].
      apply SFleb_F2R; [exact Vi|exact Vt|exact Hit]. }
  unfold cpu_usage.
  destruct (sub_le mt et i Vt Hi) as [->|(md & ed & -> & Hd)];
    [apply round2_in_range; left; reflexivity|].
  destruct (div_le md mt ed et Hd) as [->|(mr & er & -> & _ & Hr)];
    [apply round2_in_range; left; reflexivity|].
  destruct (mul_le mr er Hr) as [->|(mu & eu & -> & Hu)];
    apply round2_in_range; [left; reflexivity|right; eauto].
Qed.

(** C5, as the source has it.  With binary64 numbers in the counters, the
    value [parseCPUUsage] returns lies between 0 and 100 provided that,
    when the call takes a delta, neither counter went backwards and the
    idle counter did not advance more than the total:
    [0 <= idleDiff <= totalDiff], [totalDiff] finite.  In the other
    branches the result is 0. *)
Theorem parseCPUUsage_range (data : string) (m : ResourceMonitor) :
  valid_value (lastCpuIdle m) ->
  valid_value (lastCpuTotal m) ->
  (forall line : string,
      aggregate_line data = Some line ->
      is_null (lastCpuIdle m) = false ->
      is_null (lastCpuTotal m) = false ->
      let idleDiff := sub (ToNumber (sample_idle line)) (ToNumber (lastCpuIdle m)) in
      let totalDiff := sub (sample_total line) (ToNumber (lastCpuTotal m)) in
      le (of_Z 0) idleDiff = true /\
      le idleDiff totalDiff = true /\
      is_finite totalDiff = true) ->
  le (of_Z 0) (fst (parseCPUUsage data m)) = true /\
  le (fst (parseCPUUsage data m)) (of_Z 100) = true.
Proof.
  intros Vi Vt Hadv.
  destruct (aggregate_line data) as [line|] eqn:Hline.
  - rewrite (parseCPUUsage_found _ _ _ Hline). cbv zeta.
    destruct (is_null (lastCpuIdle m)) eqn:Ni; [split; reflexivity|].
    destruct (is_null (lastCpuTotal m)) eqn:Nt; [split; reflexivity|].
    simpl orb. cbv iota.
    destruct (strict_eq _ _) eqn:Hz; [split; reflexivity|].
    destruct (Hadv line eq_refl eq_refl eq_refl) as (H0 & H1 & H2).
    simpl fst. apply andb_prop. apply usage_in_range; try assumption.
    + apply sub_valid; apply ToNumber_valid; [|exact Vi].
      apply element_valid, cpu_parts_valid.
    + apply sub_valid; [|apply ToNumber_valid; exact Vt].
      apply cpu_total_valid, cpu_parts_valid.
  - rewrite (parseCPUUsage_absent _ _ Hline). split; reflexivity.
Qed.

Lemma parseCPUUsage_range_witness :
  let m := snd (parseCPUUsage cpuData1 (this fresh)) in
  le (of_Z 0) (fst (parseCPUUsage cpuData2 m)) = true /\
  le (fst (parseCPUUsage cpuData2 m)) (of_Z 100) = true.
Proof.
  apply (parseCPUUsage_range cpuData2 (snd (parseCPUUsage cpuData1 (this fresh))));
    [reflexivity|reflexivity|].
  intros line H _ _. injection H as <-. vm_compute. repeat split; reflexivity.
Defined.

(** a second sample whose idle counter went backwards *)
Lemma parseCPUUsage_above_100 :
  let m := snd (parseCPUUsage "cpu  1000 0 0 4000" (this fresh)) in
  fst (parseCPUUsage "cpu  1500 0 0 3900" m) = of_Z 125 /\
  le (fst (parseCPUUsage "cpu  1500 0 0 3900" m)) (of_Z 100) = false.
Proof. vm_compute. split; reflexivity. Qed.

(** * Further properties *)

(** ** The timer *)

Lemma stop_one_timer (s : State) :
  one_timer s ->
  fst (stop s) = Normal tt /\
  intervalId (this (snd (stop s))) = None /\
  timers (window (snd (stop s))) = [] /\
  intervalSeconds (this (snd (stop s))) = intervalSeconds (this s) /\
  nextTimeout (window (snd (stop s))) = nextTimeout (window s).
Proof.
  destruct s as [m w]. unfold one_timer, stop, bind, get. simpl.
  destruct (intervalId m) as [t|] eqn:Hid; simpl.
  - intros ->. simpl. rewrite Nat.eqb_refl. simpl. auto.
  - intros ->. rewrite Hid. auto.
Qed.

Lemma stop_normal (s : State) : fst (stop s) = Normal tt.
Proof.
  destruct s as [m w]. unfold stop, bind, get. simpl.
  destruct (intervalId m); reflexivity.
Qed.

(** [start()], after the [stop()] it begins with on a running monitor *)
Lemma start_eq (s : State) :
  start s =
    let s1 := match intervalId (this s) with
              | Some _ => snd (stop s)
              | None => s
              end in
    (Normal tt,
     {| this := set_intervalId (Some (nextTimeout (window s1))) (this s1);
        window :=
          {| timers := (nextTimeout (window s1),
                        mul (intervalSeconds (this s1)) (of_Z 1000))
                       :: timers (window s1);
             nextTimeout := S (nextTimeout (window s1));
             errorMessages := errorMessages (window s1) |} |}).
Proof.
  unfold start, bind, get. simpl.
  destruct (intervalId (this s)).
  - pose proof (stop_normal s) as H. destruct (stop s) as [c s1].
    simpl in H. subst c. reflexivity.
  - reflexivity.
Qed.

(** [start()] on a monitor in either state *)
Lemma start_spec (s : State) :
  one_timer s ->
  fst (start s) = Normal tt /\
  intervalId (this (snd (start s))) = Some (nextTimeout (window s)) /\
  timers (window (snd (start s))) =
    [(nextTimeout (window s), mul (intervalSeconds (this s)) (of_Z 1000))] /\
  intervalSeconds (this (snd (start s))) = intervalSeconds (this s) /\
  nextTimeout (window (snd (start s))) = S (nextTimeout (window s)).
Proof.
  intros H. destruct (stop_one_timer s H) as (_ & Hid & Ht & Hs & Hn).
  rewrite start_eq. cbv zeta. simpl.
  destruct (intervalId (this s)) as [t|] eqn:Hrun.
  - rewrite Ht, Hs, Hn. auto.
  - unfold one_timer in H. rewrite Hrun in H. rewrite H. auto.
Qed.

(** [updateInterval(n)], by the state of the monitor *)
Lemma updateInterval_eq (n : number) (s : State) :
  updateInterval n s =
    match intervalId (this s) with
    | Some _ =>
        start {| this := set_intervalSeconds n (this (snd (stop s)));
                 window := window (snd (stop s)) |}
    | None =>
        (Normal tt, {| this := set_intervalSeconds n (this s); window := window s |})
    end.
Proof.
  unfold updateInterval, bind, get, modify, ret. simpl.
  destruct (intervalId (this s)).
  - pose proof (stop_normal s) as H. destruct (stop s) as [c s1].
    simpl in H. subst c. simpl. destruct (start _) as [[[]|e] s2]; reflexivity.
  - reflexivity.
Qed.

(** [updateInterval] keeps the timer in step with the monitor *)
Lemma updateInterval_one_timer (n : number) (s : State) :
  one_timer s ->
  one_timer (snd (updateInterval n s)) /\
  intervalSeconds (this (snd (updateInterval n s))) = n /\
  (intervalId (this s) <> None ->
   intervalId (this (snd (updateInterval n s))) <> None).
Proof.
  intros H. rewrite updateInterval_eq.
  destruct (intervalId (this s)) as [t|] eqn:Hrun.
  - destruct (stop_one_timer s H) as (_ & Hid & Ht & _).
    set (s1 := {| this := set_intervalSeconds n (this (snd (stop s)));
                  window := window (snd (stop s)) |}).
    assert (one_timer s1) as H1.
    { unfold one_timer, s1. simpl. rewrite Hid. exact Ht. }
    destruct (start_spec s1 H1) as (_ & Eid & Et & Es & _).
    unfold one_timer. rewrite Eid, Et, Es. simpl.
    split; [reflexivity|]. split; [reflexivity|discriminate].
  - unfold one_timer in *. simpl. rewrite Hrun in *.
    split; [exact H|]. split; [reflexivity|]. intros C. now contradiction C.
Qed.

(** X1.  [updateInterval(n)] always sets the interval to [n].  On a running
    monitor it clears the timer and sets one new timer of period
    [n * 1000]; on a stopped monitor it sets no timer and leaves the
    window as it was. *)
Theorem updateInterval_restarts (n : number) (s : State) :
  one_timer s ->
  fst (updateInterval n s) = Normal tt /\
  intervalSeconds (this (snd (updateInterval n s))) = n /\
  match intervalId (this s) with
  | Some _ =>
      intervalId (this (snd (updateInterval n s))) = Some (nextTimeout (window s)) /\
      timers (window (snd (updateInterval n s))) =
        [(nextTimeout (window s), mul n (of_Z 1000))]
  | None =>
      intervalId (this (snd (updateInterval n s))) = None /\
      window (snd (updateInterval n s)) = window s
  end.
Proof.
  intros H. rewrite updateInterval_eq.
  destruct (intervalId (this s)) as [t|] eqn:Hrun.
  - destruct (stop_one_timer s H) as (_ & Hid & Ht & Hs & Hn).
    set (s1 := {| this := set_intervalSeconds n (this (snd (stop s)));
                  window := window (snd (stop s)) |}).
    assert (one_timer s1) as H1.
    { unfold one_timer, s1. simpl. rewrite Hid. exact Ht. }
    destruct (start_spec s1 H1) as (E & Eid & Et & Es & _).
    unfold s1 in Eid, Et, Es. simpl in Eid, Et, Es.
    rewrite Hn in Eid, Et. auto.
  - simpl. rewrite Hrun. auto.
Qed.

Lemma updateInterval_restarts_witness :
  timers (window (snd (updateInterval (of_Z 5) (snd (start fresh))))) =
    [(1%nat, of_Z 5000)] /\
  timers (window (snd (updateInterval (of_Z 10) fresh))) = [].
Proof.
  destruct (updateInterval_restarts (of_Z 5) (snd (start fresh)) eq_refl)
    as (_ & _ & H).
  destruct (updateInterval_restarts (of_Z 10) fresh eq_refl) as (_ & _ & H').
  split; [exact (proj2 H)|].
  exact (eq_trans (f_equal timers (proj2 H')) eq_refl).
Defined.

(** ** What a cycle leaves alone *)

(** [parseCPUUsage] writes the two counters and nothing else *)
Lemma parseCPUUsage_writes (data : string) (m : ResourceMonitor) :
  exists idle total, snd (parseCPUUsage data m) = set_lastCpu idle total m.
Proof.
  destruct (aggregate_line data) as [line|] eqn:H.
  - rewrite (parseCPUUsage_found _ _ _ H). cbv zeta.
    destruct (is_null (lastCpuIdle m) || is_null (lastCpuTotal m));
      [simpl; eauto|].
    destruct (strict_eq _ _); simpl; eauto.
  - rewrite (parseCPUUsage_absent _ _ H).
    exists (lastCpuIdle m), (lastCpuTotal m). destruct m; reflexivity.
Qed.

Lemma collectAndUpdate_eq (fs : FileSystem) (s : State) :
  collectAndUpdate fs s =
    match fs "/proc/stat", fs "/proc/meminfo", fs "/proc/loadavg" with
    | inl cpuData, inl memData, inl loadData =>
        let parsed := parseCPUUsage cpuData (this s) in
        (Normal tt,
         {| this := updateStatusBar (fst parsed) (parseMemoryUsage memData)
                      (parseLoadAverages loadData) (snd parsed);
            window := window s |})
    | inr error, _, _ | inl _, inr error, _ | inl _, inl _, inr error =>
        (Normal tt,
         with_message ("Resource collection error: " ++ error_text error) s)
    end.
Proof.
  unfold collectAndUpdate, try_catch, bind, readFile, call, modify.
  destruct (fs "/proc/stat") as [c|e]; [|reflexivity].
  destruct (fs "/proc/meminfo") as [d|e]; [|reflexivity].
  destruct (fs "/proc/loadavg") as [l|e]; [|reflexivity].
  destruct (parseCPUUsage c (this s)) as [r m']. reflexivity.
Qed.

(** a cycle leaves the timer, the interval and the selection alone *)
Lemma collectAndUpdate_keeps (fs : FileSystem) (s : State) :
  let s' := snd (collectAndUpdate fs s) in
  timers (window s') = timers (window s) /\
  intervalId (this s') = intervalId (this s) /\
  intervalSeconds (this s') = intervalSeconds (this s) /\
  displayOptions (this s') = displayOptions (this s).
Proof.
  cbv zeta. rewrite collectAndUpdate_eq.
  destruct (fs "/proc/stat") as [c|e]; [|repeat split].
  destruct (fs "/proc/meminfo") as [d|e]; [|repeat split].
  destruct (fs "/proc/loadavg") as [l|e]; [|repeat split].
  cbv zeta. destruct (parseCPUUsage_writes c (this s)) as (i & t & ->).
  repeat split.
Qed.

(** X2.  One cycle completes normally and leaves the timers, the handle, the
    interval and the selection of metrics as they were.  It shows no
    message when the three reads resolve and one message otherwise. *)
Theorem collectAndUpdate_frame (fs : FileSystem) (s : State) :
  let s' := snd (collectAndUpdate fs s) in
  fst (collectAndUpdate fs s) = Normal tt /\
  timers (window s') = timers (window s) /\
  nextTimeout (window s') = nextTimeout (window s) /\
  intervalId (this s') = intervalId (this s) /\
  intervalSeconds (this s') = intervalSeconds (this s) /\
  displayOptions (this s') = displayOptions (this s) /\
  match fs "/proc/stat", fs "/proc/meminfo", fs "/proc/loadavg" with
  | inl _, inl _, inl _ => errorMessages (window s') = errorMessages (window s)
  | _, _, _ =>
      List.length (errorMessages (window s')) =
        S (List.length (errorMessages (window s))) /\
      this s' = this s
  end.
Proof.
  cbv zeta. rewrite collectAndUpdate_eq.
  assert (forall msg, List.length (errorMessages (window (with_message msg s))) =
                      S (List.length (errorMessages (window s)))) as Hlen.
  { intros msg. simpl. rewrite length_app. simpl. lia. }
  destruct (fs "/proc/stat") as [c|e]; [|repeat split; apply Hlen].
  destruct (fs "/proc/meminfo") as [d|e]; [|repeat split; apply Hlen].
  destruct (fs "/proc/loadavg") as [l|e]; [|repeat split; apply Hlen].
  cbv zeta. destruct (parseCPUUsage_writes c (this s)) as (i & t & ->).
  repeat split.
Qed.

Lemma showDisplayOptionsMenu_eq (fs : FileSystem) (selected : list string)
      (s : State) :
  showDisplayOptionsMenu fs (Some selected) s =
    collectAndUpdate fs
      {| this := set_displayOptions
                   {| showCpu := existsb (startsWith "CPU") selected;
                      showMemory := existsb (startsWith "Memory") selected;
                      showLoad := existsb (startsWith "Load") selected |}
                   (this s);
         window := window s |}.
Proof. reflexivity. Qed.

(** ** Runs *)

Lemma perform_one_timer (a : action) (s : State) :
  one_timer s -> one_timer (snd (perform a s)).
Proof.
  intros H. destruct a as [| |n|fs|fs [selected|]]; unfold perform.
  - destruct (start_spec s H) as (_ & Hid & Ht & Hs & _).
    unfold one_timer. now rewrite Hid, Ht, Hs.
  - destruct (stop_one_timer s H) as (_ & Hid & Ht & _).
    unfold one_timer. now rewrite Hid.
  - apply (updateInterval_one_timer n s H).
  - destruct (collectAndUpdate_keeps fs s) as (Ht & Hid & Hs & _).
    unfold one_timer in *. now rewrite Hid, Ht, Hs.
  - rewrite showDisplayOptionsMenu_eq.
    destruct (collectAndUpdate_keeps fs
                {| this := set_displayOptions
                     {| showCpu := existsb (startsWith "CPU") selected;
                        showMemory := existsb (startsWith "Memory") selected;
                        showLoad := existsb (startsWith "Load") selected |}
                     (this s);
                   window := window s |}) as (Ht & Hid & Hs & _).
    unfold one_timer in *. rewrite Hid, Ht, Hs. exact H.
  - exact H.
Qed.

(** X3.  Whatever is done to a monitor, in whatever order, at most one timer is
    set: none while the monitor is stopped, and while it runs the one it
    holds, with the period of its current interval. *)
Theorem run_one_timer (actions : list action) (s : State) :
  one_timer s -> one_timer (run actions s).
Proof.
  revert s. induction actions as [|a actions IH]; intros s H; [exact H|].
  apply IH. now apply perform_one_timer.
Qed.

Lemma run_one_timer_witness :
  one_timer (run [Start; UpdateInterval (of_Z 5); Start; CollectAndUpdate procfs;
                  Stop; UpdateInterval (of_Z 10); Start] fresh).
Proof. apply run_one_timer. reflexivity. Defined.

(** ** Lines and fields *)

Lemma without_cons (sep c : ascii) (s : string) :
  without sep (String c s) = true ->
  Ascii.eqb c sep = false /\ without sep s = true.
Proof.
  unfold without. intros H. apply all_chars_cons in H. destruct H as [H1 H2].
  apply negb_true_iff in H1. auto.
Qed.

Lemma split_app (sep : ascii) (a rest : string) :
  without sep a = true ->
  split sep (a ++ String sep rest) = a :: split sep rest.
Proof.
  induction a as [|c a IH]; intros H; simpl.
  - now rewrite Ascii.eqb_refl.
  - apply without_cons in H. destruct H as [Hc Ha].
    rewrite Hc, (IH Ha). reflexivity.
Qed.

Lemma split_without (sep : ascii) (a : string) :
  without sep a = true -> split sep a = [a].
Proof.
  induction a as [|c a IH]; intros H; simpl; [reflexivity|].
  apply without_cons in H. destruct H as [Hc Ha].
  rewrite Hc, (IH Ha). reflexivity.
Qed.

(** splitting what was joined gives the pieces back *)
Lemma split_join (sep : ascii) (pieces : list string) :
  pieces <> [] ->
  Forall (fun p => without sep p = true) pieces ->
  split sep (join (String sep "") pieces) = pieces.
Proof.
  induction pieces as [|a [|b r] IH]; intros Hne H; [contradiction| |].
  - simpl. inversion H; subst. now apply split_without.
  - inversion H; subst.
    change (join (String sep "") (a :: b :: r))
      with (a ++ String sep "" ++ join (String sep "") (b :: r)).
    change (String sep "" ++ join (String sep "") (b :: r))
      with (String sep (join (String sep "") (b :: r))).
    rewrite split_app by assumption. rewrite IH; [reflexivity|discriminate|assumption].
Qed.

Lemma find_skip {A : Type} (p : A -> bool) (before : list A) (x : A)
      (after : list A) :
  Forall (fun y => p y = false) before -> p x = true ->
  find p (before ++ x :: after) = Some x.
Proof.
  intros Hb Hx. induction Hb as [|y before Hy _ IH]; simpl.
  - now rewrite Hx.
  - now rewrite Hy.
Qed.

(** X4.  [parseCPUUsage] reads the first line that starts with ["cpu "] and
    nothing else: the lines before it, which do not start so (the lines of
    the cores among them), and all the lines after it are ignored. *)
Theorem parseCPUUsage_ignores_other_lines
        (before : list string) (cpuLine : string) (after : list string)
        (m : ResourceMonitor) :
  Forall (fun l => without LF l = true) (before ++ cpuLine :: after) ->
  Forall (fun l => startsWith "cpu " l = false) before ->
  startsWith "cpu " cpuLine = true ->
  parseCPUUsage (unlines (before ++ cpuLine :: after)) m =
    parseCPUUsage cpuLine m.
Proof.
  intros Hlf Hb Hc.
  assert (aggregate_line (unlines (before ++ cpuLine :: after)) = Some cpuLine) as H1.
  { unfold aggregate_line, unlines. rewrite split_join.
    - now apply find_skip.
    - destruct before; discriminate.
    - exact Hlf. }
  assert (aggregate_line cpuLine = Some cpuLine) as H2.
  { unfold aggregate_line. rewrite split_without.
    - simpl. now rewrite Hc.
    - rewrite Forall_forall in Hlf. apply Hlf. apply in_or_app. right. now left. }
  now rewrite (parseCPUUsage_found _ _ _ H1), (parseCPUUsage_found _ _ _ H2).
Qed.

Lemma parseCPUUsage_ignores_other_lines_witness :
  parseCPUUsage
    (unlines (["intr 1"; "cpu0 100 20 30 400"]
              ++ "cpu  1000 200 300 4000" :: ["cpu1 1 2 3 4"; "cpu  9 9 9 9"]))
    (this fresh) =
  parseCPUUsage "cpu  1000 200 300 4000" (this fresh).
Proof.
  apply (parseCPUUsage_ignores_other_lines
           ["intr 1"; "cpu0 100 20 30 400"] "cpu  1000 200 300 4000"
           ["cpu1 1 2 3 4"; "cpu  9 9 9 9"] (this fresh)).
  - repeat constructor.
  - repeat constructor.
  - reflexivity.
Defined.

(** X5.  [parseLoadAverages] reads the first three fields; what follows the
    third space is ignored. *)
Theorem parseLoadAverages_first_three (a b c : string) (rest : list string) :
  Forall (fun f => without " " f = true) (a :: b :: c :: rest) ->
  parseLoadAverages (join " " (a :: b :: c :: rest)) =
    [parseFloat a; parseFloat b; parseFloat c].
Proof.
  intros H. unfold parseLoadAverages.
  rewrite (split_join " " (a :: b :: c :: rest)); [reflexivity|discriminate|exact H].
Qed.

Lemma parseLoadAverages_first_three_witness :
  parseLoadAverages (join " " ["0.10"; "0.20"; "0.30"; "1/200"; "4242"]) =
    [parseFloat "0.10"; parseFloat "0.20"; parseFloat "0.30"].
Proof.
  apply (parseLoadAverages_first_three "0.10" "0.20" "0.30" ["1/200"; "4242"]).
  repeat constructor.
Defined.

(** ** The counters *)

Lemma parseCPUUsage_paired (data : string) (m : ResourceMonitor) :
  counters_paired m ->
  counters_paired (snd (parseCPUUsage data m)) /\
  (is_null (lastCpuIdle m) = false ->
   is_null (lastCpuIdle (snd (parseCPUUsage data m))) = false).
Proof.
  unfold counters_paired. intros H.
  destruct (aggregate_line data) as [line|] eqn:Hl.
  - destruct (parseCPUUsage_primes data m line Hl) as [-> ->].
    rewrite sample_idle_not_null. auto.
  - rewrite (parseCPUUsage_absent _ _ Hl). auto.
Qed.

(** X6.  The two counters are [null] together, on a new monitor and after any
    calls of [parseCPUUsage]; once a sample is stored they are never [null]
    again. *)
Theorem parse_all_paired (datas : list string) (m : ResourceMonitor) :
  counters_paired m ->
  counters_paired (parse_all datas m) /\
  (is_null (lastCpuIdle m) = false ->
   is_null (lastCpuIdle (parse_all datas m)) = false).
Proof.
  revert m. induction datas as [|d datas IH]; intros m H; [auto|].
  destruct (parseCPUUsage_paired d m H) as [H1 H2].
  destruct (IH _ H1) as [H3 H4]. simpl. auto.
Qed.

Lemma parse_all_paired_witness :
  counters_paired (parse_all ["no line"; cpuData1; "cpu"; cpuData2] (this fresh)).
Proof.
  exact (proj1 (parse_all_paired ["no line"; cpuData1; "cpu"; cpuData2]
                               (this fresh) eq_refl)).
Defined.

(** *** A sample without an idle field *)

Lemma sub_NaN_l (x : number) : sub NaN x = NaN.
Proof. reflexivity. Qed.

Lemma sub_NaN_r (x : number) : sub x NaN = NaN.
Proof. destruct x; reflexivity. Qed.

Lemma cpu_usage_NaN (t : number) : round2 (cpu_usage NaN t) = NaN.
Proof.
  unfold cpu_usage. rewrite sub_NaN_r. destruct t; reflexivity.
Qed.

Lemma element_short (parts : list number) (i : nat) :
  (List.length parts <= i)%nat -> element parts i = Undefined.
Proof.
  intros H. unfold element. apply nth_error_None in H. now rewrite H.
Qed.

(** X7.  When the aggregate line has fewer than four fields, or the stored idle
    counter came from such a line, a call that takes a delta returns NaN
    unless [totalDiff] is 0; and a line with fewer than four fields stores
    [undefined], not [null], as the idle counter. *)
Theorem parseCPUUsage_without_idle
        (data line : string) (m : ResourceMonitor) :
  aggregate_line data = Some line ->
  ((List.length (cpu_parts line) < 4)%nat ->
   lastCpuIdle (snd (parseCPUUsage data m)) = Undefined) /\
  ((List.length (cpu_parts line) < 4)%nat \/ lastCpuIdle m = Undefined ->
   is_null (lastCpuIdle m) = false ->
   is_null (lastCpuTotal m) = false ->
   strict_eq (sub (sample_total line) (ToNumber (lastCpuTotal m))) (of_Z 0) = false ->
   fst (parseCPUUsage data m) = NaN).
Proof.
  intros H. split.
  - intros Hlen. destruct (parseCPUUsage_primes data m line H) as [-> _].
    apply element_short. lia.
  - intros Hundef Hi Ht Hz. rewrite (parseCPUUsage_found _ _ _ H). cbv zeta.
    rewrite Hi, Ht, Hz. simpl fst.
    assert (sub (ToNumber (sample_idle line)) (ToNumber (lastCpuIdle m)) = NaN) as ->.
    { destruct Hundef as [Hlen| ->].
      - unfold sample_idle. rewrite element_short by lia. apply sub_NaN_l.
      - apply sub_NaN_r. }
    apply cpu_usage_NaN.
Qed.

Lemma parseCPUUsage_without_idle_witness :
  let m := snd (parseCPUUsage "cpu  1 2 3" (this fresh)) in
  lastCpuIdle m = Undefined /\
  fst (parseCPUUsage "cpu  10 20 30 40" m) = NaN.
Proof.
  destruct (parseCPUUsage_without_idle "cpu  1 2 3" "cpu  1 2 3" (this fresh) eq_refl)
    as [H1 _].
  split; [apply H1; vm_compute; lia|].
  destruct (parseCPUUsage_without_idle "cpu  10 20 30 40" "cpu  10 20 30 40"
              (snd (parseCPUUsage "cpu  1 2 3" (this fresh))) eq_refl) as [_ H2].
  apply H2; try reflexivity. right. reflexivity.
Defined.

(** ** The value after a label *)

Lemma span_fst_all (p : ascii -> bool) (s : string) :
  all_chars p (fst (span p s)) = true.
Proof.
  induction s as [|c s IH]; simpl; [reflexivity|].
  destruct (p c) eqn:E; [|reflexivity].
  destruct (span p s) as [a b]. simpl in *. unfold all_chars in *. simpl.
  now rewrite E, IH.
Qed.

Lemma match_here_digits (s ds : string) :
  match_here s = Some ds -> ds <> "" /\ all_chars is_digit ds = true.
Proof.
  unfold match_here. destruct s as [|c r]; [discriminate|].
  destruct (Ascii.eqb c ":"); [|discriminate].
  destruct (span is_white_space r) as [[|w ws] r']; [discriminate|].
  pose proof (span_fst_all is_digit r') as H.
  destruct (span is_digit r') as [[|d ds'] rest]; [discriminate|].
  intros [= <-]. split; [discriminate|exact H].
Qed.

Lemma match_first_digits (s ds : string) :
  match_first s = Some ds -> ds <> "" /\ all_chars is_digit ds = true.
Proof.
  induction s as [|c s IH]; rewrite match_first_eq.
  - destruct (match_here "") eqn:E; [|discriminate].
    intros [= <-]. now apply (match_here_digits "").
  - destruct (match_here (String c s)) eqn:E.
    + intros [= <-]. now apply (match_here_digits (String c s)).
    + exact IH.
Qed.

Lemma round_ratio_class (p q : Z) :
  0 <= p -> 0 < q ->
  round_ratio false p q = S754_zero false \/
  round_ratio false p q = S754_infinity false \/
  exists m e, round_ratio false p q = S754_finite false m e.
Proof.
  intros Hp Hq. unfold round_ratio. destruct p as [|p|p]; [auto| |lia].
  pose proof (SFdiv_core_binary_spec (Zpos p) 0 q 0 ltac:(lia) Hq) as H.
  destruct (SFdiv_core_binary prec emax (Zpos p) 0 q 0) as [[m e] l].
  destruct H as (Hm & Hpre & _).
  destruct (binary_round_aux_spec false m e l Hm Hpre)
    as (m2 & _ & [[_ ->]|(m3 & e3 & _ & _ & _ & ->)]); [auto|].
  destruct (e3 <=? emax - prec); eauto.
Qed.

Lemma extractValue_all_digits (line : string) :
  extractValue line <> "" /\ all_chars is_digit (extractValue line) = true.
Proof.
  unfold extractValue. destruct (match_first line) as [ds|] eqn:E.
  - exact (match_first_digits _ _ E).
  - split; [discriminate|reflexivity].
Qed.

(** X8.  [extractValue] returns decimal digits, at least one, whatever the line:
    so [parseInt] of it is the Number value of the integer they write,
    which is not negative and not NaN. *)
Theorem extractValue_digits (line : string) :
  extractValue line <> "" /\
  all_chars is_digit (extractValue line) = true /\
  parseInt (extractValue line) =
    round_ratio false (digits_value 10 (extractValue line) 0) 1 /\
  le (of_Z 0) (parseInt (extractValue line)) = true.
Proof.
  destruct (extractValue_all_digits line) as [H1 H2].
  split; [exact H1|]. split; [exact H2|].
  rewrite (parseInt_digits _ H1 H2). split; [reflexivity|].
  destruct (round_ratio_class (digits_value 10 (extractValue line) 0) 1)
    as [->|[->|(m & e & ->)]]; try reflexivity; try lia.
  apply digits_value_nonneg; lia.
Qed.

(** X9.  A line without a colon has no value: [extractValue] returns ["0"],
    whatever digits the line holds. *)
Theorem extractValue_without_colon (line : string) :
  without ":" line = true -> extractValue line = "0".
Proof.
  intros H. unfold extractValue.
  assert (match_first line = None) as ->; [|reflexivity].
  induction line as [|c line IH]; [reflexivity|].
  apply without_cons in H. destruct H as [Hc H].
  rewrite match_first_eq. unfold match_here. rewrite Hc. exact (IH H).
Qed.

Lemma extractValue_without_colon_witness :
  extractValue "MemTotal 16384000 kB" = "0".
Proof. apply extractValue_without_colon. reflexivity. Defined.

(** ** Memory *)

Lemma parseMemoryUsage_eq (data : string) :
  parseMemoryUsage data = round2 (cpu_usage (memAvailable data) (memTotal data)).
Proof. reflexivity. Qed.

Lemma memTotal_class (data : string) :
  valid (memTotal data) /\
  (memTotal data = S754_zero false \/ memTotal data = S754_infinity false \/
   exists m e, memTotal data = S754_finite false m e).
Proof.
  unfold memTotal.
  destruct (extractValue_all_digits
              (or_else (find (startsWith "MemTotal:") (split LF data)) "MemTotal: 0 kB"))
    as [H1 H2].
  rewrite (parseInt_digits _ H1 H2).
  split; [apply round_ratio_valid|apply round_ratio_class]; try lia;
    apply digits_value_nonneg; lia.
Qed.

Lemma memAvailable_class (data : string) :
  valid (memAvailable data) /\
  (memAvailable data = S754_zero false \/ memAvailable data = S754_infinity false \/
   exists m e, memAvailable data = S754_finite false m e).
Proof.
  unfold memAvailable.
  destruct (extractValue_all_digits
              (or_else (find (startsWith "MemAvailable:") (split LF data))
                       "MemAvailable: 0 kB"))
    as [H1 H2].
  rewrite (parseInt_digits _ H1 H2).
  split; [apply round_ratio_valid|apply round_ratio_class]; try lia;
    apply digits_value_nonneg; lia.
Qed.

(** X10.  When the memory available is not above the total, and the total is
    finite and not 0, [parseMemoryUsage] returns a percentage: between 0
    and 100. *)
Theorem parseMemoryUsage_range (data : string) :
  le (memAvailable data) (memTotal data) = true ->
  is_finite (memTotal data) = true ->
  strict_eq (memTotal data) (of_Z 0) = false ->
  le (of_Z 0) (parseMemoryUsage data) = true /\
  le (parseMemoryUsage data) (of_Z 100) = true.
Proof.
  intros Hle Hfin Hnz. rewrite parseMemoryUsage_eq.
  apply andb_prop. apply usage_in_range; try assumption.
  - apply memAvailable_class.
  - apply memTotal_class.
  - destruct (memAvailable_class data) as [_ [->|[->|(m & e & ->)]]]; reflexivity.
Qed.

Lemma parseMemoryUsage_range_witness :
  le (of_Z 0) (parseMemoryUsage memData) = true /\
  le (parseMemoryUsage memData) (of_Z 100) = true.
Proof.
  apply (parseMemoryUsage_range memData); vm_compute; reflexivity.
Defined.

(** a finite number divided by itself is 1 *)
Lemma div_self (s : bool) (m : positive) (e : Z) :
  div (S754_finite s m e) (S754_finite s m e) = of_Z 1.
Proof.
  unfold div, SFdiv, SFdiv_core_binary.
  rewrite !Z.sub_diag.
  change (Z.min (fexp prec emax 0) 0) with (-53).
  change (0 - -53) with 53.
  rewrite Z.shiftl_mul_pow2 by lia.
  rewrite (surjective_pairing (Z.div_eucl (Zpos m * 2 ^ 53) (Zpos m))).
  change (fst (Z.div_eucl (Zpos m * 2 ^ 53) (Zpos m)))
    with ((Zpos m * 2 ^ 53) / Zpos m).
  change (snd (Z.div_eucl (Zpos m * 2 ^ 53) (Zpos m)))
    with ((Zpos m * 2 ^ 53) mod Zpos m).
  rewrite (Z.mul_comm (Zpos m)), Z.div_mul, Z.mod_mul by lia.
  replace (new_location (Zpos m) 0) with loc_Exact.
  - destruct s; vm_compute; reflexivity.
  - unfold new_location, new_location_even, new_location_odd.
    destruct (Z.even (Zpos m)); reflexivity.
Qed.

Lemma usage_without_total (a : number) :
  a = S754_zero false \/ a = S754_infinity false \/
  (exists m e, a = S754_finite false m e) ->
  round2 (cpu_usage a (S754_zero false)) =
    if strict_eq a (of_Z 0) then NaN else Infinity true.
Proof.
  intros [->|[->|(m & e & ->)]].
  - vm_compute. reflexivity.
  - vm_compute. reflexivity.
  - unfold cpu_usage.
    change (sub (S754_zero false) (S754_finite false m e))
      with (S754_finite true m e).
    change (div (S754_finite true m e) (S754_zero false)) with (S754_infinity true).
    change (strict_eq (S754_finite false m e) (of_Z 0)) with false.
    vm_compute. reflexivity.
Qed.

Lemma usage_without_available (m : positive) (e : Z) :
  round2 (cpu_usage (S754_zero false) (S754_finite false m e)) = of_Z 100.
Proof.
  unfold cpu_usage.
  change (sub (S754_finite false m e) (S754_zero false))
    with (S754_finite false m e).
  rewrite div_self. vm_compute. reflexivity.
Qed.

(** X11.  What [parseMemoryUsage] returns when a value is 0, as it is when its
    label is missing: with no total, NaN if nothing is available either and
    minus infinity otherwise; with a finite total and nothing available,
    100. *)
Theorem parseMemoryUsage_zero (data : string) :
  (strict_eq (memTotal data) (of_Z 0) = true ->
   parseMemoryUsage data =
     if strict_eq (memAvailable data) (of_Z 0) then NaN else Infinity true) /\
  (strict_eq (memAvailable data) (of_Z 0) = true ->
   is_finite (memTotal data) = true ->
   strict_eq (memTotal data) (of_Z 0) = false ->
   parseMemoryUsage data = of_Z 100).
Proof.
  rewrite parseMemoryUsage_eq.
  destruct (memTotal_class data) as [_ Ht].
  destruct (memAvailable_class data) as [_ Ha].
  split.
  - intros Hz.
    destruct Ht as [Et|[Et|(mt & et & Et)]]; rewrite Et in Hz |- *;
      [|discriminate Hz|discriminate Hz].
    now apply usage_without_total.
  - intros Hz Hfin Hnz.
    destruct Ha as [Ea|[Ea|(ma & ea & Ea)]]; rewrite Ea in Hz |- *;
      [|discriminate Hz|discriminate Hz].
    destruct Ht as [Et|[Et|(mt & et & Et)]]; rewrite Et in Hfin, Hnz |- *;
      [discriminate Hnz|discriminate Hfin|].
    apply usage_without_available.
Qed.

Lemma parseMemoryUsage_zero_witness :
  parseMemoryUsage "MemAvailable: 6553600 kB" = Infinity true /\
  parseMemoryUsage "MemTotal: 16384000 kB" = of_Z 100.
Proof.
  destruct (parseMemoryUsage_zero "MemAvailable: 6553600 kB") as [H1 _].
  destruct (parseMemoryUsage_zero "MemTotal: 16384000 kB") as [_ H2].
  split; [apply H1|apply H2]; reflexivity.
Defined.

(** ** The status bar *)

Lemma join_starts (sep : string) (c : ascii) (p : string) (ps : list string) :
  exists rest, join sep (String c p :: ps) = String c rest.
Proof. destruct ps; simpl; eauto. Qed.

(** X12.  [updateStatusBar] never leaves the status text empty, whatever the
    selection and the sample; the tooltip does not depend on the selection;
    and nothing but the text and the tooltip is written. *)
Theorem updateStatusBar_shows (cpu memory : number) (load : list number)
        (m : ResourceMonitor) :
  let m' := updateStatusBar cpu memory load m in
  text (statusBarItem m') <> "" /\
  tooltip (statusBarItem m') = Some (tooltip_text cpu memory load) /\
  command (statusBarItem m') = command (statusBarItem m) /\
  shown (statusBarItem m') = shown (statusBarItem m) /\
  set_statusBarItem (statusBarItem m) m' = m.
Proof.
  cbv zeta. unfold updateStatusBar.
  split; [|destruct m as [? ? [] ? ? ?]; destruct (segments _ _ _ _); repeat split].
  unfold segments.
  destruct (showCpu (displayOptions m)), (showMemory (displayOptions m)),
    (showLoad (displayOptions m)); simpl; discriminate.
Qed.

(** ** The menu *)

Lemma existsb_same {A : Type} (p : A -> bool) (l l' : list A) :
  (forall x, In x l <-> In x l') -> existsb p l = existsb p l'.
Proof.
  intros H. apply eq_true_iff_eq. rewrite !existsb_exists.
  split; intros (x & Hx & Hp); exists x; split; try assumption; now apply H.
Qed.

(** X13.  Whatever the marks on the items, confirming the menu with the items of
    the metrics one wants, in any order, shows exactly those metrics; and
    dismissing the menu changes nothing. *)
Theorem showDisplayOptionsMenu_selects
        (fs : FileSystem) (wanted : DisplayOptions) (selected : list string)
        (s : State) :
  (forall label,
      In label selected <-> In label (selection wanted (displayOptions (this s)))) ->
  displayOptions (this (snd (showDisplayOptionsMenu fs (Some selected) s))) = wanted /\
  showDisplayOptionsMenu fs None s = (Normal tt, s).
Proof.
  intros H. split; [|reflexivity].
  rewrite showDisplayOptionsMenu_eq.
  destruct (collectAndUpdate_keeps fs
              {| this := set_displayOptions
                   {| showCpu := existsb (startsWith "CPU") selected;
                      showMemory := existsb (startsWith "Memory") selected;
                      showLoad := existsb (startsWith "Load") selected |}
                   (this s);
                 window := window s |}) as (_ & _ & _ & ->).
  simpl.
  rewrite !(existsb_same _ selected _ H).
  destruct wanted as [[] [] []], (displayOptions (this s)) as [[] [] []];
    reflexivity.
Qed.

Lemma showDisplayOptionsMenu_selects_witness :
  displayOptions
    (this (snd (showDisplayOptionsMenu procfs
                  (Some ["Load Average $(check)"; "CPU $(check)"]) fresh))) =
    {| showCpu := true; showMemory := false; showLoad := true |}.
Proof.
  apply (showDisplayOptionsMenu_selects procfs
           {| showCpu := true; showMemory := false; showLoad := true |}
           ["Load Average $(check)"; "CPU $(check)"] fresh).
  intros label. simpl. tauto.
Defined.

(** ** The extension *)

(** X14.  [activate] on a remote host leaves a running monitor with one timer,
    of the configured period; elsewhere it makes no monitor and sets no
    timer. *)
Theorem activate_remote (remoteName : option string) (seconds : number)
        (w : Window) :
  quiet w ->
  match activate remoteName seconds w with
  | Some s =>
      (exists c r, remoteName = Some (String c r)) /\
      intervalId (this s) = Some (nextTimeout w) /\
      timers (window s) = [(nextTimeout w, mul seconds (of_Z 1000))] /\
      intervalSeconds (this s) = seconds
  | None => remoteName = None \/ remoteName = Some ""
  end.
Proof.
  intros Hq. unfold activate.
  destruct remoteName as [[|c r]|]; [right; reflexivity| |left; reflexivity].
  destruct (start_spec {| this := create seconds; window := w |} Hq)
    as (_ & Hid & Ht & Hs & _).
  simpl in Hid, Ht, Hs. split; [eauto|]. auto.
Qed.

Lemma activate_remote_witness :
  match activate (Some "ssh-remote") (of_Z 3) (window fresh) with
  | Some s => timers (window s) = [(O, of_Z 3000)]
  | None => False
  end.
Proof.
  pose proof (activate_remote (Some "ssh-remote") (of_Z 3) (window fresh) eq_refl) as H.
  destruct (activate (Some "ssh-remote") (of_Z 3) (window fresh)) as [s|].
  - destruct H as (_ & _ & H & _). exact H.
  - destruct H as [H|H]; discriminate H.
Defined.

(** X15.  The listener compares the new interval with the one read at
    activation, not with the monitor's current one.  After a change to
    another interval, a change back to the interval of activation is
    ignored: the monitor keeps the other interval, and its timer that
    period. *)
Theorem onDidChangeConfiguration_stale (initial other : number) (s : State) :
  one_timer s ->
  intervalId (this s) <> None ->
  strict_eq other initial = false ->
  strict_eq initial initial = true ->
  let s1 := snd (onDidChangeConfiguration initial true other s) in
  let s2 := snd (onDidChangeConfiguration initial true initial s1) in
  intervalSeconds (this s1) = other /\
  s2 = s1 /\
  exists t, timers (window s2) = [(t, mul other (of_Z 1000))].
Proof.
  intros H Hrun Hne Heq. cbv zeta. unfold onDidChangeConfiguration.
  rewrite Hne, Heq. simpl negb. cbv iota.
  destruct (updateInterval_one_timer other s H) as (H1 & Hs & Hc).
  specialize (Hc Hrun). split; [exact Hs|]. split; [reflexivity|].
  unfold ret. simpl. unfold one_timer in H1. rewrite Hs in H1.
  destruct (intervalId (this (snd (updateInterval other s)))) as [t|];
    [eauto|contradiction].
Qed.

Lemma onDidChangeConfiguration_stale_witness :
  let s := snd (start fresh) in
  let s1 := snd (onDidChangeConfiguration (of_Z 1) true (of_Z 5) s) in
  let s2 := snd (onDidChangeConfiguration (of_Z 1) true (of_Z 1) s1) in
  intervalSeconds (this s2) = of_Z 5.
Proof.
  destruct (onDidChangeConfiguration_stale (of_Z 1) (of_Z 5) (snd (start fresh)))
    as (H1 & H2 & _); [reflexivity|discriminate|reflexivity|reflexivity|].
  cbv zeta. rewrite H2. exact H1.
Defined.

(** ** What is shown *)

Lemma same_finite_eq (x y : number) : same_finite x y = true -> x = y.
Proof.
  destruct x as [a|a| |a m e], y as [b|b| |b m' e']; try discriminate; simpl.
  - intros H. apply Bool.eqb_prop in H. now subst.
  - intros H. apply andb_prop in H. destruct H as [H H3].
    apply andb_prop in H. destruct H as [H1 H2].
    apply Bool.eqb_prop in H1. apply Pos.eqb_eq in H2. apply Z.eqb_eq in H3.
    now subst.
Qed.

Lemma hundredths_shown_well :
  forallb shown_well (seq 0 (Z.to_nat 10001)) = true.
Proof. vm_compute. reflexivity. Qed.

Lemma hundredth_shown (n : Z) :
  0 <= n <= 10000 ->
  let x := parseFloat (point_notation n 2) in
  (fraction_length (ToString x) <= 2)%nat /\
  parseFloat (ToString x) = x /\
  round2 x = x.
Proof.
  intros Hn. pose proof hundredths_shown_well as H.
  rewrite forallb_forall in H. specialize (H (Z.to_nat n)).
  unfold shown_well in H. rewrite Z2Nat.id in H by lia.
  assert (In (Z.to_nat n) (seq 0 (Z.to_nat 10001))) as Hin by (apply in_seq; lia).
  specialize (H Hin). cbv zeta in H |- *.
  apply andb_prop in H. destruct H as [H H3].
  apply andb_prop in H. destruct H as [H1 H2].
  apply Nat.leb_le in H1. apply same_finite_eq in H2, H3. auto.
Qed.

(** the rounding of a usage up to 100 is a number of hundredths *)
Lemma round2_hundredth (u : number) :
  u = S754_zero false \/
  (exists mu eu, u = S754_finite false mu eu /\ (F2R (Zpos mu) eu <= 100)%R) ->
  exists n, 0 <= n <= 10000 /\ round2 u = parseFloat (point_notation n 2).
Proof.
  intros [->|(mu & eu & -> & Hle)];
    [exists 0; split; [lia|vm_compute; reflexivity]|].
  unfold round2, toFixed.
  destruct (numerator_denominator mu eu) as [Hq Hv].
  set (p := numerator mu eu) in *. set (q := denominator eu) in *.
  assert (0 < p) as Hp.
  { apply lt_IZR. rewrite <- Hv. pose proof (F2R_pos mu eu).
    apply IZR_lt in Hq. nra. }
  assert (p <= 100 * q) as Hpq.
  { apply le_IZR. rewrite mult_IZR, <- Hv. apply IZR_lt in Hq. nra. }
  assert ((10 ^ 21 * q <=? p) = false) as ->.
  { apply Z.leb_gt.
    assert (100 * q < 10 ^ 21 * q); [|lia].
    apply Z.mul_lt_mono_pos_r; [exact Hq|reflexivity]. }
  change ((if false then "-" else "") ++ fixed_notation p q 2)%string
    with (fixed_notation p q 2).
  unfold fixed_notation. exists (nearest_integer p q 2). split; [|reflexivity].
  unfold nearest_integer. change (10 ^ Z.of_nat 2) with 100. split.
  - apply Z.div_pos; lia.
  - assert ((2 * p * 100 + q) / (2 * q) < 10001); [|lia].
    apply Z.div_lt_upper_bound; lia.
Qed.

Lemma usage_hundredth (i t : number) :
  valid i -> valid t ->
  le (of_Z 0) i = true -> le i t = true ->
  is_finite t = true -> strict_eq t (of_Z 0) = false ->
  exists n, 0 <= n <= 10000 /\
            round2 (cpu_usage i t) = parseFloat (point_notation n 2).
Proof.
  intros Vi Vt H0i Hit Hfin Hnz.
  destruct t as [st|st| |st mt et]; try discriminate.
  assert (st = false /\
          ((exists s, i = S754_zero s) \/
           (exists mi ei, i = S754_finite false mi ei /\
                          (F2R (Zpos mi) ei <= F2R (Zpos mt) et)%R))) as [-> Hi].
  { destruct i as [si|si| |si mi ei]; try discriminate.
    - destruct st; [discriminate|]. split; [reflexivity|left; eauto].
    - destruct si; discriminate.
    - destruct si; [discriminate|]. destruct st; [discriminate|].
      split; [reflexivity|right]. exists mi, ei. split; [reflexivity|].
      apply SFleb_F2R; [exact Vi|exact Vt|exact Hit]. }
  unfold cpu_usage.
  destruct (sub_le mt et i Vt Hi) as [->|(md & ed & -> & Hd)];
    [apply round2_hundredth; left; reflexivity|].
  destruct (div_le md mt ed et Hd) as [->|(mr & er & -> & _ & Hr)];
    [apply round2_hundredth; left; reflexivity|].
  destruct (mul_le mr er Hr) as [->|(mu & eu & -> & Hu)];
    apply round2_hundredth; [left; reflexivity|right; eauto].
Qed.

(** X16.  When neither counter went backwards and the idle counter did
    not advance more than the total, the CPU usage [parseCPUUsage] returns
    is shown with at most two decimals, reads back from what is shown, and
    is its own rounding to two decimals. *)
Theorem parseCPUUsage_two_decimals (data : string) (m : ResourceMonitor) :
  valid_value (lastCpuIdle m) ->
  valid_value (lastCpuTotal m) ->
  (forall line : string,
      aggregate_line data = Some line ->
      is_null (lastCpuIdle m) = false ->
      is_null (lastCpuTotal m) = false ->
      let idleDiff := sub (ToNumber (sample_idle line)) (ToNumber (lastCpuIdle m)) in
      let totalDiff := sub (sample_total line) (ToNumber (lastCpuTotal m)) in
      le (of_Z 0) idleDiff = true /\
      le idleDiff totalDiff = true /\
      is_finite totalDiff = true) ->
  let usage := fst (parseCPUUsage data m) in
  (fraction_length (ToString usage) <= 2)%nat /\
  parseFloat (ToString usage) = usage /\
  round2 usage = usage.
Proof.
  intros Vi Vt Hadv. cbv zeta.
  assert (exists n, 0 <= n <= 10000 /\
                    fst (parseCPUUsage data m) = parseFloat (point_notation n 2))
    as (n & Hn & ->); [|exact (hundredth_shown n Hn)].
  assert (exists n, 0 <= n <= 10000 /\ of_Z 0 = parseFloat (point_notation n 2))
    as Hzero by (exists 0; split; [lia|vm_compute; reflexivity]).
  destruct (aggregate_line data) as [line|] eqn:Hline.
  - rewrite (parseCPUUsage_found _ _ _ Hline). cbv zeta.
    destruct (is_null (lastCpuIdle m)) eqn:Ni; [exact Hzero|].
    destruct (is_null (lastCpuTotal m)) eqn:Nt; [exact Hzero|].
    simpl orb. cbv iota.
    destruct (strict_eq _ _) eqn:Hz; [exact Hzero|].
    destruct (Hadv line eq_refl eq_refl eq_refl) as (H0 & H1 & H2).
    simpl fst. apply usage_hundredth; try assumption.
    + apply sub_valid; apply ToNumber_valid; [|exact Vi].
      apply element_valid, cpu_parts_valid.
    + apply sub_valid; [|apply ToNumber_valid; exact Vt].
      apply cpu_total_valid, cpu_parts_valid.
  - rewrite (parseCPUUsage_absent _ _ Hline). exact Hzero.
Qed.

Lemma parseCPUUsage_two_decimals_witness :
  let m := snd (parseCPUUsage cpuData1 (this fresh)) in
  let usage := fst (parseCPUUsage cpuData2 m) in
  (fraction_length (ToString usage) <= 2)%nat /\
  parseFloat (ToString usage) = usage /\
  round2 usage = usage.
Proof.
  apply (parseCPUUsage_two_decimals cpuData2
           (snd (parseCPUUsage cpuData1 (this fresh))));
    [reflexivity|reflexivity|].
  intros line H _ _. injection H as <-. vm_compute. repeat split; reflexivity.
Defined.

(** X17.  When the memory available is not above the total, and the total
    is finite and not 0, the memory usage [parseMemoryUsage] returns is
    shown with at most two decimals, reads back from what is shown, and is
    its own rounding to two decimals. *)
Theorem parseMemoryUsage_two_decimals (data : string) :
  le (memAvailable data) (memTotal data) = true ->
  is_finite (memTotal data) = true ->
  strict_eq (memTotal data) (of_Z 0) = false ->
  (fraction_length (ToString (parseMemoryUsage data)) <= 2)%nat /\
  parseFloat (ToString (parseMemoryUsage data)) = parseMemoryUsage data /\
  round2 (parseMemoryUsage data) = parseMemoryUsage data.
Proof.
  intros Hle Hfin Hnz. rewrite parseMemoryUsage_eq.
  destruct (usage_hundredth (memAvailable data) (memTotal data))
    as (n & Hn & ->); try assumption.
  - apply memAvailable_class.
  - apply memTotal_class.
  - destruct (memAvailable_class data) as [_ [->|[->|(m & e & ->)]]]; reflexivity.
  - exact (hundredth_shown n Hn).
Qed.

Lemma parseMemoryUsage_two_decimals_witness :
  (fraction_length (ToString (parseMemoryUsage memData)) <= 2)%nat /\
  parseFloat (ToString (parseMemoryUsage memData)) = parseMemoryUsage memData /\
  round2 (parseMemoryUsage memData) = parseMemoryUsage memData.
Proof.
  apply (parseMemoryUsage_two_decimals memData); vm_compute; reflexivity.
Defined.

(** ** What the scheduler leaves alone *)

Lemma same_data_trans (s1 s2 s3 : State) :
  same_data s1 s2 -> same_data s2 s3 -> same_data s1 s3.
Proof.
  unfold same_data.
  intros (A & B & C & D & E) (A' & B' & C' & D' & E').
  rewrite A', B', C', D', E'. auto 6.
Qed.

Lemma stop_same_data (s : State) : same_data s (snd (stop s)).
Proof.
  destruct s as [m w]. unfold stop, bind, get, same_data. simpl.
  destruct (intervalId m); simpl; auto 6.
Qed.

Lemma start_same_data (s : State) : same_data s (snd (start s)).
Proof.
  rewrite start_eq. cbv zeta. simpl.
  destruct (intervalId (this s)).
  - apply stop_same_data.
  - unfold same_data. auto 6.
Qed.

Lemma perform_same_data (a : action) (s : State) :
  scheduling a = true -> same_data s (snd (perform a s)).
Proof.
  destruct a as [| |n|fs|fs sel]; try discriminate; intros _; unfold perform.
  - apply start_same_data.
  - apply stop_same_data.
  - rewrite updateInterval_eq. destruct (intervalId (this s)).
    + apply (same_data_trans _ _ _ (stop_same_data s)).
      exact (start_same_data
               {| this := set_intervalSeconds n (this (snd (stop s)));
                  window := window (snd (stop s)) |}).
    + unfold same_data. simpl. auto 6.
Qed.

(** X18.  [start()], [stop()] and [updateInterval()], in any number and order,
    never touch the CPU counters, the selection of metrics, the tooltip or
    the messages.  So a monitor that is stopped and started again takes its
    next CPU delta from the sample stored before it was stopped. *)
Theorem run_scheduling_keeps_data (actions : list action) (s : State) :
  forallb scheduling actions = true -> same_data s (run actions s).
Proof.
  revert s. induction actions as [|a actions IH]; intros s H.
  - unfold same_data. simpl. auto 6.
  - simpl in H. apply andb_prop in H. destruct H as [Ha H].
    apply (same_data_trans _ _ _ (perform_same_data a s Ha)).
    exact (IH _ H).
Qed.

Lemma run_scheduling_keeps_data_witness :
  same_data shown_while_stopped
    (run [Start; UpdateInterval (of_Z 5); Stop; Start] shown_while_stopped).
Proof. apply run_scheduling_keeps_data. reflexivity. Defined.
